(** * go-mail: the streaming NULL-normalisation pipeline of the [df] tool

    A shallow embedding of
      - [internal/nulls/policy.go]   ([Policy], [IsNull]),
      - [internal/csvio/read.go]     ([ReadHeaders], [ReadHead], [normalizeRow]),
      - [internal/csvio/transform.go] ([NullifyStats], [NullifyFile]),
    together with the parts of Go's standard library these files call
    ([strings.TrimSpace], [strings.ToUpper], [encoding/csv], [os], [fmt.Errorf]).

    Conventions.
      - A Go [string] is a [String.string]: a sequence of 8-bit bytes.
      - A Go [int] is a [Z] in the 64-bit two's-complement range (a 64-bit
        target); [++] on an [int] is [incr], which wraps around.
      - A Go slice is a [list], its length a [nat].
      - A value of Go's interface [error] is an [option error], [None] being
        [nil]. *)

From Stdlib Require Import ZArith NArith List Bool Ascii String Lia.
From Stdlib Require Import FunInd Permutation.
Import ListNotations.
Local Open Scope string_scope.
Local Open Scope list_scope.

(** ** Go's [int] *)

Definition MaxInt : Z := 2 ^ 63 - 1.
Definition MinInt : Z := - 2 ^ 63.

(** Two's-complement reduction of an integer to 64 bits. *)
Definition wrap (z : Z) : Z := (z + 2 ^ 63) mod 2 ^ 64 - 2 ^ 63.

(** [x++] on an [int]. *)
Definition incr (x : Z) : Z := wrap (x + 1).

(** [a * b] on two [int]s. *)
Definition mul (a b : Z) : Z := wrap (a * b).

(** [len(s)] of a slice, as an [int]. *)
Definition len {A : Type} (l : list A) : Z := Z.of_nat (List.length l).

(** ** Go's [error] values *)

(** [io_EOF] is the sentinel [io.EOF]; [Failure] is any other error value a
    library call hands back; [Errorf ctx cause] is what
    [fmt.Errorf(ctx + ": %w", cause)] builds. *)
Inductive error : Type :=
| io_EOF
| Failure (msg : string)
| Errorf (ctx : string) (cause : error).

(** [err == io.EOF]. *)
Definition is_EOF (e : error) : bool :=
  match e with
  | io_EOF => true
  | _ => false
  end.

(** [err.Error()]. *)
Fixpoint Error (e : error) : string :=
  match e with
  | io_EOF => "EOF"
  | Failure msg => msg
  | Errorf ctx cause => ctx ++ ": " ++ Error cause
  end.

(** A call that returns [(value, error)]. *)
Inductive result (A : Type) : Type :=
| Ok (a : A)
| Err (e : error).
Arguments Ok {A} a.
Arguments Err {A} e.

(** A call either returns or panics. *)
Inductive outcome (A : Type) : Type :=
| Returns (a : A)
| Panics (msg : string).
Arguments Returns {A} a.
Arguments Panics {A} msg.

(** ** Package [strings] *)

Definition byte (c : ascii) : N := N_of_ascii c.

Definition bytes (l : list N) : string :=
  string_of_list_ascii (map ascii_of_N l).

(** The 8-bit white space Go's [asciiSpace] table marks:
    ['\t'], ['\n'], ['\v'], ['\f'], ['\r'], [' ']. *)
Definition asciiSpace (c : ascii) : bool :=
  let b := byte c in
  ((9 <=? b) && (b <=? 13) || (b =? 32))%N.

(** Two bytes that are the UTF-8 form of U+0085 or U+00A0. *)
Definition space2 (c1 c2 : ascii) : bool :=
  let b1 := byte c1 in
  let b2 := byte c2 in
  ((b1 =? 0xC2) && ((b2 =? 0x85) || (b2 =? 0xA0)))%N.

(** Three bytes that are the UTF-8 form of U+1680, U+2000..U+200A, U+2028,
    U+2029, U+202F, U+205F or U+3000. *)
Definition space3 (c1 c2 c3 : ascii) : bool :=
  let b1 := byte c1 in
  let b2 := byte c2 in
  let b3 := byte c3 in
  ((b1 =? 0xE1) && (b2 =? 0x9A) && (b3 =? 0x80)
   || (b1 =? 0xE2) && (b2 =? 0x80)
      && ((0x80 <=? b3) && (b3 <=? 0x8A)
          || (b3 =? 0xA8) || (b3 =? 0xA9) || (b3 =? 0xAF))
   || (b1 =? 0xE2) && (b2 =? 0x81) && (b3 =? 0x9F)
   || (b1 =? 0xE3) && (b2 =? 0x80) && (b3 =? 0x80))%N.

(** [strings.TrimLeftFunc(s, unicode.IsSpace)]: the runes at the front of [s]
    are dropped as long as they are white space.  A rune that is not white
    space, and a byte that starts no well-formed rune, stop the scan. *)
Fixpoint TrimLeftSpace (s : string) : string :=
  match s with
  | EmptyString => EmptyString
  | String c1 s1 =>
      if asciiSpace c1 then TrimLeftSpace s1
      else
        match s1 with
        | EmptyString => s
        | String c2 s2 =>
            if space2 c1 c2 then TrimLeftSpace s2
            else
              match s2 with
              | EmptyString => s
              | String c3 s3 =>
                  if space3 c1 c2 c3 then TrimLeftSpace s3 else s
              end
        end
  end.

(** The same scan from the other end, on the bytes of the string in reverse
    order: [l] lists the last byte first. *)
Fixpoint trimSpaceRev (l : list ascii) : list ascii :=
  match l with
  | [] => []
  | c1 :: l1 =>
      if asciiSpace c1 then trimSpaceRev l1
      else
        match l1 with
        | [] => l
        | c2 :: l2 =>
            if space2 c2 c1 then trimSpaceRev l2
            else
              match l2 with
              | [] => l
              | c3 :: l3 =>
                  if space3 c3 c2 c1 then trimSpaceRev l3 else l
              end
        end
  end.

(** [strings.TrimRightFunc(s, unicode.IsSpace)]. *)
Definition TrimRightSpace (s : string) : string :=
  string_of_list_ascii (rev (trimSpaceRev (rev (list_ascii_of_string s)))).

(** [strings.TrimSpace(s)]: [s] without its leading and trailing white space,
    as Unicode defines it. *)
Definition TrimSpace (s : string) : string :=
  TrimRightSpace (TrimLeftSpace s).

(** The UTF-8 forms of the runes [unicode.IsSpace] accepts. *)
Definition whiteSpace : list string :=
  map bytes
    [ [0x09]; [0x0A]; [0x0B]; [0x0C]; [0x0D]; [0x20];
      [0xC2; 0x85]; [0xC2; 0xA0];
      [0xE1; 0x9A; 0x80];
      [0xE2; 0x80; 0x80]; [0xE2; 0x80; 0x81]; [0xE2; 0x80; 0x82];
      [0xE2; 0x80; 0x83]; [0xE2; 0x80; 0x84]; [0xE2; 0x80; 0x85];
      [0xE2; 0x80; 0x86]; [0xE2; 0x80; 0x87]; [0xE2; 0x80; 0x88];
      [0xE2; 0x80; 0x89]; [0xE2; 0x80; 0x8A];
      [0xE2; 0x80; 0xA8]; [0xE2; 0x80; 0xA9]; [0xE2; 0x80; 0xAF];
      [0xE2; 0x81; 0x9F];
      [0xE3; 0x80; 0x80] ]%N.

(** A string made of white-space runes only (the empty string is one). *)
Inductive WhiteSpaceOnly : string -> Prop :=
| ws_empty : WhiteSpaceOnly ""
| ws_rune (w s : string) :
    In w whiteSpace -> WhiteSpaceOnly s -> WhiteSpaceOnly (w ++ s).

(** No byte of [s] is outside ASCII ([c < utf8.RuneSelf] for each). *)
Fixpoint isASCII (s : string) : bool :=
  match s with
  | EmptyString => true
  | String c s' => (byte c <? 128)%N && isASCII s'
  end.

(** The upper-case form of an ASCII byte: ['a'..'z'] lose 32. *)
Definition upperByte (c : ascii) : ascii :=
  let b := byte c in
  if ((97 <=? b) && (b <=? 122))%N then ascii_of_N (b - 32) else c.

Fixpoint mapBytes (f : ascii -> ascii) (s : string) : string :=
  match s with
  | EmptyString => EmptyString
  | String c s' => String (f c) (mapBytes f s')
  end.

(** ** Package [unicode/utf8] *)

Module utf8.

(** [utf8.RuneError], U+FFFD. *)
Definition RuneError : N := 0xFFFD.

(** A continuation byte, [10xxxxxx]. *)
Definition continuation (b : N) : bool := ((0x80 <=? b) && (b <=? 0xBF))%N.

(** The width of the rune a first byte [b0] announces; [0] for a byte that
    starts no rune ([0x80..0xC1], [0xF5..0xFF]). *)
Definition width (b0 : N) : nat :=
  if (b0 <? 0x80)%N then 1
  else if ((0xC2 <=? b0) && (b0 <=? 0xDF))%N then 2
  else if ((0xE0 <=? b0) && (b0 <=? 0xEF))%N then 3
  else if ((0xF0 <=? b0) && (b0 <=? 0xF4))%N then 4
  else 0.

(** The second bytes a first byte accepts: the ranges that keep out overlong
    forms, surrogates and runes past U+10FFFF. *)
Definition second (b0 b1 : N) : bool :=
  (((if b0 =? 0xE0 then 0xA0 else if b0 =? 0xF0 then 0x90 else 0x80) <=? b1)
   && (b1 <=? (if b0 =? 0xED then 0x9F else if b0 =? 0xF4 then 0x8F
               else 0xBF)))%N.

(** [utf8.DecodeRuneInString(s)]: the rune at the front of [s] and its width
    in bytes; [(RuneError, 1)] when the front of [s] is no well-formed rune,
    [(RuneError, 0)] when [s] is empty. *)
Definition DecodeRuneInString (s : string) : N * nat :=
  match s with
  | EmptyString => (RuneError, 0)
  | String c0 s1 =>
      let b0 := byte c0 in
      match width b0, s1 with
      | 1, _ => (b0, 1)
      | 2, String c1 _ =>
          let b1 := byte c1 in
          if second b0 b1
          then (((b0 - 0xC0) * 64 + (b1 - 0x80))%N, 2)
          else (RuneError, 1)
      | 3, String c1 (String c2 _) =>
          let b1 := byte c1 in
          let b2 := byte c2 in
          if second b0 b1 && continuation b2
          then ((((b0 - 0xE0) * 64 + (b1 - 0x80)) * 64 + (b2 - 0x80))%N, 3)
          else (RuneError, 1)
      | 4, String c1 (String c2 (String c3 _)) =>
          let b1 := byte c1 in
          let b2 := byte c2 in
          let b3 := byte c3 in
          if second b0 b1 && continuation b2 && continuation b3
          then (((((b0 - 0xF0) * 64 + (b1 - 0x80)) * 64 + (b2 - 0x80)) * 64
                 + (b3 - 0x80))%N, 4)
          else (RuneError, 1)
      | _, _ => (RuneError, 1)
      end
  end.

(** The runes [for _, r := range s] goes through, in order: a byte that
    starts no well-formed rune gives [RuneError] and the scan moves on by one
    byte. *)
Fixpoint runes (s : string) : list N :=
  match s with
  | EmptyString => []
  | String c0 s1 =>
      fst (DecodeRuneInString s)
      :: match snd (DecodeRuneInString s), s1 with
         | 2, String _ s2 => runes s2
         | 3, String _ (String _ s3) => runes s3
         | 4, String _ (String _ (String _ s4)) => runes s4
         | _, _ => runes s1
         end
  end.

(** [utf8.RuneCountInString(s)]. *)
Definition RuneCountInString (s : string) : Z := len (runes s).

(** A rune that has a UTF-8 form of its own: up to U+10FFFF and no
    surrogate. *)
Definition ValidRune (r : N) : bool :=
  ((r <=? 0x10FFFF) && negb ((0xD800 <=? r) && (r <=? 0xDFFF)))%N.

(** [utf8.AppendRune(nil, r)]: the UTF-8 form of [r], that of [RuneError]
    for a rune that has none. *)
Definition EncodeRune (r : N) : string :=
  if (r <=? 0x7F)%N then bytes [r]
  else if (r <=? 0x7FF)%N then bytes [0xC0 + r / 64; 0x80 + r mod 64]%N
  else if negb (ValidRune r) then bytes [0xEF; 0xBF; 0xBD]%N
  else if (r <=? 0xFFFF)%N then
    bytes [0xE0 + r / 4096; 0x80 + (r / 64) mod 64; 0x80 + r mod 64]%N
  else
    bytes [0xF0 + r / 262144; 0x80 + (r / 4096) mod 64;
           0x80 + (r / 64) mod 64; 0x80 + r mod 64]%N.

(** The UTF-8 forms of the runes [rs], one after the other. *)
Fixpoint encodeAll (rs : list N) : string :=
  match rs with
  | [] => EmptyString
  | r :: rs' => (EncodeRune r ++ encodeAll rs')%string
  end.

(** [utf8.ValidString(s)]: [s] is the UTF-8 form of its runes; no byte of it
    had to be read as [RuneError]. *)
Definition ValidString (s : string) : bool :=
  (encodeAll (runes s) =? s)%string.

End utf8.

(** ** Package [render]: [table.go] *)

Module render.

Definition min (a b : Z) : Z := if (a <? b)%Z then a else b.

Definition max (a b : Z) : Z := if (a >? b)%Z then a else b.

Definition runeLen (s : string) : Z := utf8.RuneCountInString s.

(** The loop of [takeRunes] over the runes of [s] still to come: [out] is
    the builder, [count] stays at most [n]. *)
Fixpoint takeLoop (rs : list N) (out : string) (count n : Z) : string :=
  match rs with
  | [] => out
  | r :: rs' =>
      let out := (out ++ utf8.EncodeRune r)%string in
      let count := (count + 1)%Z in
      if (count >=? n)%Z then out else takeLoop rs' out count n
  end.

Definition takeRunes (s : string) (n : Z) : string :=
  if (n <=? 0)%Z then EmptyString else takeLoop (utf8.runes s) EmptyString 0 n.

(** The string ["…"], U+2026. *)
Definition ellipsis : string := bytes [0xE2; 0x80; 0xA6]%N.

Definition clip (s : string) (max : Z) : string :=
  if (max <=? 0)%Z then s
  else if (runeLen s <=? max)%Z then s
  else if (max <=? 1)%Z then ellipsis
  else (takeRunes s (max - 1) ++ ellipsis)%string.

End render.

(** Induction along the scans of [TrimSpace]. *)
Functional Scheme TrimLeftSpace_ind := Induction for TrimLeftSpace Sort Prop.
Functional Scheme trimSpaceRev_ind := Induction for trimSpaceRev Sort Prop.

(** A table for closed examples: their strings are ASCII and never reach
    it. *)
Definition asciiTable (s : string) : string := s.

Section Pipeline.

(** [strings.Map(unicode.ToUpper, s)] on a string that holds a byte outside
    ASCII.  It is driven by the case tables of Go's package [unicode], which
    are no part of the repository: every result below holds whatever these
    tables say. *)
Variable unicodeUpper : string -> string.

(** [strings.ToUpper(s)]: ASCII text is mapped byte by byte, other text goes
    through the Unicode tables. *)
Definition ToUpper (s : string) : string :=
  if isASCII s then mapBytes upperByte s else unicodeUpper s.

(** ** Package [nulls] *)

Record Policy : Type := {
  TreatBlanks : bool;
  TreatNA : bool;
  TreatNULLLiteral : bool
}.

Definition IsNull (p : Policy) (s : string) : bool :=
  let trimmed := TrimSpace s in
  if TreatBlanks p && (trimmed =? "") then true
  else
    let upper := ToUpper trimmed in
    if TreatNA p && ((upper =? "NA") || (upper =? "N/A")) then true
    else if TreatNULLLiteral p && (upper =? "NULL") then true
    else false.

(** ** Package [encoding/csv] and package [os] *)

(** A CSV record: the fields of one line. *)
Definition record : Type := list string.

(** What a [csv.Reader] over an opened file holds: the outcome of each
    [Read] still to come, in order.  [Row rec] is a parsed record, [Bad e] a
    failed read (a malformed line, a failing disk).  Past the last item every
    [Read] returns [io.EOF].  [FieldsPerRecord = -1]: a record of any length
    is accepted. *)
Inductive ReadItem : Type :=
| Row (rec : record)
| Bad (e : error).

Definition Reader : Type := list ReadItem.

(** [rec, err := r.Read()]. *)
Definition csv_Read (r : Reader) : result record * Reader :=
  match r with
  | [] => (Err io_EOF, [])
  | Row rec :: r' => (Ok rec, r')
  | Bad e :: r' => (Err e, r')
  end.

(** What a [csv.Writer] over a created file holds: the error each [Write]
    still to come returns ([None] is [nil]; past the last item every [Write]
    succeeds), and the error [w.Error()] reports once the buffer is flushed. *)
Record Writer : Type := {
  writes : list (option error);
  flushed : option error
}.

(** [err := w.Write(rec)]. *)
Definition csv_Write (w : Writer) (rec : record) : option error * Writer :=
  match writes w with
  | [] => (None, w)
  | o :: rest => (o, {| writes := rest; flushed := flushed w |})
  end.

(** [os.Open] and [os.Create], with the CSV reader or writer put on the file
    these return. *)
Record FileSystem : Type := {
  os_Open : string -> result Reader;
  os_Create : string -> result Writer
}.

(** The calls a run makes on its reader and its writer, in order. *)
Inductive Event : Type :=
| EvRead (res : result record)
| EvWrite (rec : record) (err : option error)
| EvFlush.

(** ** Package [csvio]: [read.go] *)

(** [copy(dst, src)]: the first [min(len(dst), len(src))] elements of [dst]
    are overwritten. *)
Definition copy {A : Type} (dst src : list A) : list A :=
  let n := Nat.min (List.length dst) (List.length src) in
  firstn n src ++ skipn n dst.

(** [width] is a slice length at every call ([len(headers)]), hence a
    [nat]. *)
Definition normalizeRow (row : record) (width : nat) : record :=
  if (List.length row =? width)%nat then row
  else
    let out := repeat "" width in
    let copyLen := List.length row in
    let copyLen := if (width <? copyLen)%nat then width else copyLen in
    copy out (firstn copyLen row).

Definition ReadHeaders (fs : FileSystem) (path : string) : result record :=
  match os_Open fs path with
  | Err e => Err (Errorf "open csv" e)
  | Ok r =>
      match csv_Read r with
      | (Err e, _) => Err (Errorf "read headers" e)
      | (Ok headers, _) => Ok headers
      end
  end.

(** The loop of [ReadHead]: [for len(rows) < n { ... }].  The match on [r] is
    [r.Read()]. *)
Fixpoint readRows (n : Z) (width : nat) (r : Reader) (rows : list record)
  : result (list record) :=
  if (len rows <? n)%Z then
    match r with
    | [] => Ok rows
    | Bad e :: r' =>
        if is_EOF e then Ok rows else Err (Errorf "read row" e)
    | Row rec :: r' => readRows n width r' (rows ++ [normalizeRow rec width])
    end
  else Ok rows.

(** [make([][]string, 0, n)] panics on a negative [n]. *)
Definition ReadHead (fs : FileSystem) (path : string) (n : Z)
  : outcome (result (record * list record)) :=
  match os_Open fs path with
  | Err e => Returns (Err (Errorf "open csv" e))
  | Ok r =>
      match csv_Read r with
      | (Err e, _) => Returns (Err (Errorf "read headers" e))
      | (Ok headers, r) =>
          if (n <? 0)%Z then Panics "makeslice: cap out of range"
          else
            match readRows n (List.length headers) r [] with
            | Err e => Returns (Err e)
            | Ok rows => Returns (Ok (headers, rows))
            end
      end
  end.

(** ** Package [csvio]: [transform.go] *)

Record NullifyStats : Type := {
  RowsRead : Z;
  CellsChecked : Z;
  CellsNullified : Z
}.

(** [NullifyStats{}]. *)
Definition noStats : NullifyStats :=
  {| RowsRead := 0; CellsChecked := 0; CellsNullified := 0 |}.

(** What a call of [NullifyFile] returns, and what it did to its files. *)
Record Run : Type := {
  stats : NullifyStats;
  err : option error;
  trace : list Event
}.

Definition emit (ev : Event) (run : Run) : Run :=
  {| stats := stats run; err := err run; trace := ev :: trace run |}.

(** The inner loop, [for i := range rec { ... }]: each cell in turn, left to
    right, is counted, tested and, on a match, emptied in place.  The record
    comes back as the loop leaves it. *)
Fixpoint nullifyCells (policy : Policy) (rec : record) (st : NullifyStats)
  : record * NullifyStats :=
  match rec with
  | [] => ([], st)
  | cell :: rest =>
      let st :=
        {| RowsRead := RowsRead st;
           CellsChecked := incr (CellsChecked st);
           CellsNullified := CellsNullified st |} in
      if IsNull policy cell then
        let st :=
          if negb (cell =? "") then
            {| RowsRead := RowsRead st;
               CellsChecked := CellsChecked st;
               CellsNullified := incr (CellsNullified st) |}
          else st in
        let (rest', st') := nullifyCells policy rest st in
        ("" :: rest', st')
      else
        let (rest', st') := nullifyCells policy rest st in
        (cell :: rest', st')
  end.

(** After the loop: [w.Flush()], then [w.Error()]. *)
Definition flushOutput (w : Writer) (st : NullifyStats) : Run :=
  match flushed w with
  | Some e =>
      {| stats := st; err := Some (Errorf "flush output csv" e);
         trace := [EvFlush] |}
  | None => {| stats := st; err := None; trace := [EvFlush] |}
  end.

(** The body of the outer loop between the read and the write:
    [stats.RowsRead++], [normalizeRow], then the inner loop. *)
Definition processRow (policy : Policy) (headers : record) (rec : record)
  (st : NullifyStats) : record * NullifyStats :=
  let st :=
    {| RowsRead := incr (RowsRead st);
       CellsChecked := CellsChecked st;
       CellsNullified := CellsNullified st |} in
  let rec := normalizeRow rec (List.length headers) in
  nullifyCells policy rec st.

(** The outer loop, [for { rec, err := r.Read() ... }], and what follows it.
    The match on [r] is [r.Read()]. *)
Fixpoint nullifyRows (policy : Policy) (headers : record) (r : Reader)
  (w : Writer) (st : NullifyStats) : Run :=
  match r with
  | [] => emit (EvRead (Err io_EOF)) (flushOutput w st)
  | Bad e :: r' =>
      emit (EvRead (Err e))
        (if is_EOF e then flushOutput w st
         else {| stats := st; err := Some (Errorf "read row" e); trace := [] |})
  | Row rec :: r' =>
      emit (EvRead (Ok rec))
        (let (rec, st) := processRow policy headers rec st in
         match csv_Write w rec with
         | (Some e, _) =>
             emit (EvWrite rec (Some e))
               {| stats := st; err := Some (Errorf "write row" e);
                  trace := [] |}
         | (None, w) =>
             emit (EvWrite rec None) (nullifyRows policy headers r' w st)
         end)
  end.

(** [defer w.Flush()]: one more flush as the function returns. *)
Definition deferFlush (run : Run) : Run :=
  {| stats := stats run; err := err run; trace := trace run ++ [EvFlush] |}.

Definition failed (e : error) : Run :=
  {| stats := noStats; err := Some e; trace := [] |}.

Definition NullifyFile (fs : FileSystem) (inputPath outputPath : string)
  (policy : Policy) : Run :=
  match os_Open fs inputPath with
  | Err e => failed (Errorf "open input csv" e)
  | Ok r =>
      match os_Create fs outputPath with
      | Err e => failed (Errorf "create output csv" e)
      | Ok w =>
          deferFlush
            match csv_Read r with
            | (Err e, _) =>
                emit (EvRead (Err e)) (failed (Errorf "read headers" e))
            | (Ok headers, r) =>
                emit (EvRead (Ok headers))
                  match csv_Write w headers with
                  | (Some e, _) =>
                      emit (EvWrite headers (Some e))
                        (failed (Errorf "write headers" e))
                  | (None, w) =>
                      emit (EvWrite headers None)
                        (nullifyRows policy headers r w noStats)
                  end
            end
      end
  end.

(** The records a run handed to its writer with success, in order: the
    lines of the output file. *)
Fixpoint written (tr : list Event) : list record :=
  match tr with
  | [] => []
  | EvWrite rec None :: tr' => rec :: written tr'
  | _ :: tr' => written tr'
  end.

(** The records a run got from its reader, in order. *)
Fixpoint readBack (tr : list Event) : list record :=
  match tr with
  | [] => []
  | EvRead (Ok rec) :: tr' => rec :: readBack tr'
  | _ :: tr' => readBack tr'
  end.

(** The records a run handed to its writer, whatever the writer answered. *)
Fixpoint attempted (tr : list Event) : list record :=
  match tr with
  | [] => []
  | EvWrite rec _ :: tr' => rec :: attempted tr'
  | _ :: tr' => attempted tr'
  end.

(** The input a run works on, and its header. *)
Definition inputOf (fs : FileSystem) (path : string) : Reader :=
  match os_Open fs path with
  | Ok r => r
  | Err _ => []
  end.

Definition headerOf (r : Reader) : record :=
  match csv_Read r with
  | (Ok headers, _) => headers
  | (Err _, _) => []
  end.

(** What the inner loop leaves in the cells of a record. *)
Definition nullified (policy : Policy) (rec : record) : record :=
  map (fun cell => if IsNull policy cell then "" else cell) rec.

(** A cell the inner loop counts as checked and never as changed. *)
Definition settled (policy : Policy) (cell : string) : bool :=
  implb (IsNull policy cell) (cell =? "").

Definition settledItem (policy : Policy) (it : ReadItem) : bool :=
  match it with
  | Row rec => forallb (settled policy) rec
  | Bad _ => true
  end.

(** The first [n] writes on [w] succeed. *)
Definition accepts (w : Writer) (n : nat) : bool :=
  forallb (fun o => match o with None => true | Some _ => false end)
    (firstn n (writes w)).

(** The policy with every switch off. *)
Definition allOff : Policy :=
  {| TreatBlanks := false; TreatNA := false; TreatNULLLiteral := false |}.

(** The statistics after the rows [rows] went through the outer loop's body,
    one after the other. *)
Definition processed (policy : Policy) (headers : record) (rows : list record)
  (st : NullifyStats) : NullifyStats :=
  fold_left (fun st rec => snd (processRow policy headers rec st)) rows st.

(** The events of one full turn of the outer loop on the record [rec]. *)
Definition turn (policy : Policy) (headers : record) (rec : record)
  : list Event :=
  [ EvRead (Ok rec);
    EvWrite (nullified policy (normalizeRow rec (List.length headers))) None ].

(** ** More of a run *)

(** The writer [w] after [n] writes. *)
Definition after (w : Writer) (n : nat) : Writer :=
  {| writes := skipn n (writes w); flushed := flushed w |}.

(** A run with the events [evs] before its own. *)
Definition prepend (evs : list Event) (run : Run) : Run :=
  {| stats := stats run; err := err run; trace := evs ++ trace run |}.

(** What a data row is in the output: normalised to the header's width, the
    cells the policy matches emptied. *)
Definition outputRow (policy : Policy) (headers : record) (rec : record)
  : record :=
  nullified policy (normalizeRow rec (List.length headers)).

(** The context [fmt.Errorf] put on an error, if it put one. *)
Definition phase (e : option error) : option string :=
  match e with
  | Some (Errorf ctx _) => Some ctx
  | _ => None
  end.

(** The phases an error of [NullifyFile] is wrapped with: before the first
    data row, and from the first data row on. *)
Definition headerPhases : list string :=
  [ "open input csv"; "create output csv"; "read headers"; "write headers" ].

Definition rowPhases : list string :=
  [ "read row"; "write row"; "flush output csv" ].

(** ** Runes *)

(** [utf8.RuneStart(b)]: [b] is not a continuation byte. *)
Definition RuneStart (c : ascii) : bool :=
  let b := byte c in
  negb ((0x80 <=? b) && (b <? 0xC0))%N.

(** A string that is empty or starts with a byte that starts a rune. *)
Definition startsRune (s : string) : bool :=
  match s with
  | EmptyString => true
  | String c _ => RuneStart c
  end.

(** ** Command [df]: [main.go] *)

(** [indexByte(s, b)], the loop from index [i] on; [i] stays below
    [len(s)]. *)
Fixpoint indexByteFrom (i : Z) (s : string) (b : ascii) : Z :=
  match s with
  | EmptyString => -1
  | String c s' => if Ascii.eqb c b then i else indexByteFrom (i + 1) s' b
  end.

Definition indexByte (s : string) (b : ascii) : Z := indexByteFrom 0 s b.

(** A [map[string]bool]: the entries, a later one for a key shadowed by an
    earlier one.  [allowed[k]] is [false] for a key the map does not hold. *)
Definition boolMap : Type := list (string * bool).

Fixpoint mapGet (m : boolMap) (k : string) : bool :=
  match m with
  | [] => false
  | (k', v) :: m' => if (k' =? k)%string then v else mapGet m' k
  end.

(** The test of the "-n=5" form: [eq > 0] and [allowed[a[:eq]]]. *)
Definition flagWithValue (allowed : boolMap) (a : string) : bool :=
  let eq := indexByte a "="%char in
  (0 <? eq)%Z && mapGet allowed (substring 0 (Z.to_nat eq) a).

(** The loop of [reorderFlagsToFront], from argument [i] on: [args] holds
    [args[i:]]. *)
Fixpoint reorderLoop (allowed : boolMap) (args flags positionals : list string)
  : list string :=
  match args with
  | [] => flags ++ positionals
  | a :: rest =>
      if flagWithValue allowed a then
        reorderLoop allowed rest (flags ++ [a]) positionals
      else if mapGet allowed a then
        match rest with
        | v :: rest' =>
            reorderLoop allowed rest' (flags ++ [a; v]) positionals
        | [] => (flags ++ [a]) ++ positionals
        end
      else reorderLoop allowed rest flags (positionals ++ [a])
  end.

Definition reorderFlagsToFront (args : list string) (allowed : boolMap)
  : list string :=
  reorderLoop allowed args [] [].

(** The two slices the loop builds, without the accumulators. *)
Fixpoint splitArgs (allowed : boolMap) (args : list string)
  : list string * list string :=
  match args with
  | [] => ([], [])
  | a :: rest =>
      if flagWithValue allowed a then
        (a :: fst (splitArgs allowed rest), snd (splitArgs allowed rest))
      else if mapGet allowed a then
        match rest with
        | v :: rest' =>
            (a :: v :: fst (splitArgs allowed rest'),
             snd (splitArgs allowed rest'))
        | [] => ([a], [])
        end
      else (fst (splitArgs allowed rest), a :: snd (splitArgs allowed rest))
  end.

Functional Scheme splitArgs_ind := Induction for splitArgs Sort Prop.

(** An argument the loop leaves among the positionals. *)
Definition positional (allowed : boolMap) (a : string) : bool :=
  negb (flagWithValue allowed a) && negb (mapGet allowed a).

(** Arguments the loop reads as flags from the first to the last: "-n=5",
    or "-n" with the argument after it as its value, or a last "-n" with no
    value. *)
Inductive FlagArgs (allowed : boolMap) : list string -> Prop :=
| fa_nil : FlagArgs allowed []
| fa_value (a : string) (l : list string) :
    flagWithValue allowed a = true ->
    FlagArgs allowed l -> FlagArgs allowed (a :: l)
| fa_pair (a v : string) (l : list string) :
    flagWithValue allowed a = false -> mapGet allowed a = true ->
    FlagArgs allowed l -> FlagArgs allowed (a :: v :: l)
| fa_last (a : string) :
    flagWithValue allowed a = false -> mapGet allowed a = true ->
    FlagArgs allowed [a].

(** The flags [runHead] lets come after the file name. *)
Definition headFlags : boolMap := [ ("-n", true); ("-w", true) ].

(** A writer whose first [n] writes succeed and whose next write fails with
    [e]. *)
Definition failingAfter (n : nat) (e : error) : Writer :=
  {| writes := repeat None n ++ [Some e]; flushed := None |}.

(** A file system whose every input file holds the items [r] and whose every
    output file is behind the writer [w]. *)
Definition holdingOn (r : Reader) (w : Writer) : FileSystem :=
  {| os_Open := fun _ => Ok r; os_Create := fun _ => Ok w |}.

(** ** Scenarios *)

(** A writer on a file that takes every write and flushes without error. *)
Definition healthy : Writer := {| writes := []; flushed := None |}.

(** A file system whose every input file holds the items [r] and whose every
    output file is healthy. *)
Definition holding (r : Reader) : FileSystem :=
  {| os_Open := fun _ => Ok r; os_Create := fun _ => Ok healthy |}.

(** The file system a second run finds: the input file holds the records
    the run [run] wrote. *)
Definition reopen (run : Run) : FileSystem :=
  holding (map Row (written (trace run))).

(** Scenario A: header [a,b], rows ["1",""] and [" ","2"], blanks only. *)
Definition blanksOnly : Policy :=
  {| TreatBlanks := true; TreatNA := false; TreatNULLLiteral := false |}.

Definition scenarioA : Reader :=
  [ Row ["a"; "b"]; Row ["1"; ""]; Row [" "; "2"] ].

(** Scenario B's policy: blanks and NA markers. *)
Definition blanksAndNA : Policy :=
  {| TreatBlanks := true; TreatNA := true; TreatNULLLiteral := false |}.

(** Scenario E: the second data line does not parse. *)
Definition scenarioE : Reader :=
  [ Row ["a"; "b"]; Row ["NA"; " "];
    Bad (Failure "parse error on line 3, column 4: unterminated quoted field");
    Row ["x"; "y"] ].

(** ** Go's [int]: facts *)

Lemma wrap_small (z : Z) : (MinInt <= z <= MaxInt)%Z -> wrap z = z.
Proof.
  unfold wrap, MinInt, MaxInt. intros H.
  rewrite Z.mod_small; lia.
Qed.

Lemma wrap_wrap_add (a b : Z) : wrap (wrap a + b) = wrap (a + b).
Proof.
  unfold wrap. f_equal.
  replace ((a + 2 ^ 63) mod 2 ^ 64 - 2 ^ 63 + b + 2 ^ 63)%Z
    with ((a + 2 ^ 63) mod 2 ^ 64 + b)%Z by lia.
  rewrite Z.add_mod_idemp_l by lia.
  f_equal. lia.
Qed.

Lemma incr_wrap (a : Z) : incr (wrap a) = wrap (a + 1).
Proof. unfold incr. apply wrap_wrap_add. Qed.

Lemma mul_wrap_l (a b : Z) : mul (wrap a) b = wrap (a * b).
Proof.
  unfold mul, wrap. f_equal.
  replace (((a + 2 ^ 63) mod 2 ^ 64 - 2 ^ 63) * b + 2 ^ 63)%Z
    with ((a + 2 ^ 63) mod 2 ^ 64 * b + (2 ^ 63 - 2 ^ 63 * b))%Z by lia.
  rewrite <- Z.add_mod_idemp_l by lia.
  rewrite Z.mul_mod_idemp_l by lia.
  rewrite Z.add_mod_idemp_l by lia.
  f_equal. lia.
Qed.

(** ** Package [strings]: facts *)

Lemma TrimLeftSpace_rune (w s : string) :
  In w whiteSpace -> TrimLeftSpace (w ++ s) = TrimLeftSpace s.
Proof.
  unfold whiteSpace. cbn [map In].
  intros H.
  repeat (destruct H as [H | H]; [ subst w; reflexivity | ]).
  contradiction.
Qed.

Lemma TrimLeftSpace_WhiteSpaceOnly (s : string) :
  WhiteSpaceOnly s -> TrimLeftSpace s = "".
Proof.
  induction 1 as [ | w s Hw _ IH ].
  - reflexivity.
  - rewrite TrimLeftSpace_rune; assumption.
Qed.

Lemma TrimSpace_WhiteSpaceOnly (s : string) :
  WhiteSpaceOnly s -> TrimSpace s = "".
Proof.
  intros H. unfold TrimSpace.
  rewrite TrimLeftSpace_WhiteSpaceOnly by assumption.
  reflexivity.
Qed.

Lemma ToUpper_empty : ToUpper "" = "".
Proof. reflexivity. Qed.

(** ** Package [nulls]: [IsNull] *)

Lemma IsNull_true_iff (p : Policy) (s : string) :
  IsNull p s = true <->
  (TreatBlanks p = true /\ TrimSpace s = "")
  \/ (TreatNA p = true
      /\ (ToUpper (TrimSpace s) = "NA" \/ ToUpper (TrimSpace s) = "N/A"))
  \/ (TreatNULLLiteral p = true /\ ToUpper (TrimSpace s) = "NULL").
Proof.
  unfold IsNull.
  destruct (String.eqb_spec (TrimSpace s) "") as [Ht | Ht];
    destruct (String.eqb_spec (ToUpper (TrimSpace s)) "NA") as [Hna | Hna];
    destruct (String.eqb_spec (ToUpper (TrimSpace s)) "N/A") as [Hn_a | Hn_a];
    destruct (String.eqb_spec (ToUpper (TrimSpace s)) "NULL") as [Hnull | Hnull];
    destruct (TreatBlanks p), (TreatNA p), (TreatNULLLiteral p);
    cbn [andb orb]; intuition congruence.
Qed.

Lemma IsNull_allOff (s : string) : IsNull allOff s = false.
Proof. reflexivity. Qed.

(** C3.  [IsNull p s] holds exactly when, with [trimmed] the input without its
    surrounding white space and [upper] its upper-case form, blanks are
    treated as NULL and [trimmed] is empty, or NA markers are and [upper] is
    "NA" or "N/A", or the NULL literal is and [upper] is "NULL".  A string
    of white space only is NULL exactly when blanks are treated as NULL: the
    NA and NULL-literal rules never match it. *)
Theorem IsNull_spec (p : Policy) (s : string) :
  let trimmed := TrimSpace s in
  let upper := ToUpper trimmed in
  (IsNull p s = true <->
   (TreatBlanks p = true /\ trimmed = "")
   \/ (TreatNA p = true /\ (upper = "NA" \/ upper = "N/A"))
   \/ (TreatNULLLiteral p = true /\ upper = "NULL"))
  /\ (WhiteSpaceOnly s ->
      IsNull p s = TreatBlanks p
      /\ upper <> "NA" /\ upper <> "N/A" /\ upper <> "NULL").
Proof.
  intros trimmed upper. split.
  - apply IsNull_true_iff.
  - intros Hws.
    assert (Ht : trimmed = "") by (apply TrimSpace_WhiteSpaceOnly; assumption).
    assert (Hu : upper = "").
    { unfold upper. rewrite Ht. apply ToUpper_empty. }
    split.
    + unfold IsNull. fold trimmed. fold upper. rewrite Ht, Hu.
      destruct (TreatBlanks p), (TreatNA p), (TreatNULLLiteral p); reflexivity.
    + rewrite Hu. repeat split; discriminate.
Qed.

(** C5.  Switching more rules on never takes a string out of the NULL class:
    when every switch that is on in [p] is on in [q], whatever [p] classifies
    as NULL, [q] classifies as NULL. *)
Theorem IsNull_monotone (p q : Policy) (s : string) :
  (TreatBlanks p = true -> TreatBlanks q = true) ->
  (TreatNA p = true -> TreatNA q = true) ->
  (TreatNULLLiteral p = true -> TreatNULLLiteral q = true) ->
  IsNull p s = true -> IsNull q s = true.
Proof.
  intros Hb Hna Hnull Hp.
  apply IsNull_true_iff in Hp. apply IsNull_true_iff.
  destruct Hp as [[Hpb Ht] | [[Hpna Hu] | [Hpnull Hu]]].
  - left. split; [ apply Hb | ]; assumption.
  - right. left. split; [ apply Hna | ]; assumption.
  - right. right. split; [ apply Hnull | ]; assumption.
Qed.

(** ** [normalizeRow] *)

Lemma skipn_repeat {A : Type} (x : A) (n m : nat) :
  skipn n (repeat x m) = repeat x (m - n).
Proof.
  revert m. induction n as [ | n IH ]; intros m.
  - rewrite Nat.sub_0_r. reflexivity.
  - destruct m as [ | m ]; [ reflexivity | ].
    cbn [repeat skipn Nat.sub]. apply IH.
Qed.

Lemma normalizeRow_eq (row : record) (width : nat) :
  normalizeRow row width
  = firstn width row ++ repeat "" (width - List.length row).
Proof.
  unfold normalizeRow, copy.
  destruct (Nat.eqb_spec (List.length row) width) as [Heq | Hne].
  - subst width. rewrite firstn_all, Nat.sub_diag, app_nil_r. reflexivity.
  - destruct (Nat.ltb_spec width (List.length row)) as [Hlt | Hge].
    + rewrite repeat_length, length_firstn, firstn_firstn.
      rewrite (Nat.min_l width (List.length row)) by lia.
      rewrite !Nat.min_id, skipn_repeat, Nat.sub_diag.
      replace (width - List.length row) with 0 by lia. reflexivity.
    + rewrite firstn_all, repeat_length.
      rewrite (Nat.min_r width (List.length row)) by lia.
      rewrite firstn_all, skipn_repeat.
      rewrite firstn_all2 by lia. reflexivity.
Qed.

Lemma normalizeRow_length (row : record) (width : nat) :
  List.length (normalizeRow row width) = width.
Proof.
  rewrite normalizeRow_eq, length_app, length_firstn, repeat_length. lia.
Qed.

Lemma normalizeRow_id (row : record) :
  normalizeRow row (List.length row) = row.
Proof.
  unfold normalizeRow. rewrite Nat.eqb_refl. reflexivity.
Qed.

(** C2.  [normalizeRow record width] has exactly [width] fields.  A record
    of [width] fields or more keeps its first [width] fields, unchanged and in
    order; a shorter record keeps all its fields, unchanged and in order, and
    empty strings fill it up to [width]. *)
Theorem normalizeRow_spec (row : record) (width : nat) :
  List.length (normalizeRow row width) = width
  /\ (width <= List.length row -> normalizeRow row width = firstn width row)
  /\ (List.length row < width ->
      normalizeRow row width = row ++ repeat "" (width - List.length row)).
Proof.
  split; [ apply normalizeRow_length | ].
  rewrite normalizeRow_eq. split; intros H.
  - replace (width - List.length row) with 0 by lia.
    apply app_nil_r.
  - rewrite firstn_all2 by lia. reflexivity.
Qed.

(** ** [ReadHead] *)

(** C9.  On a file that opens and whose first record reads, [ReadHead path 0]
    returns that record as the header with no data row, and no error: the
    header [ReadHeaders] returns, and nothing more. *)
Theorem ReadHead_zero (fs : FileSystem) (path : string) (r r' : Reader)
  (headers : record) :
  os_Open fs path = Ok r ->
  csv_Read r = (Ok headers, r') ->
  ReadHead fs path 0 = Returns (Ok (headers, []))
  /\ ReadHeaders fs path = Ok headers.
Proof.
  intros Hopen Hread. unfold ReadHead, ReadHeaders.
  rewrite Hopen, Hread. cbn [Z.ltb Z.compare].
  split; [ | reflexivity ].
  destruct r' as [ | [rec | e] r'' ]; reflexivity.
Qed.

(** ** The inner loop *)

Lemma len_cons {A : Type} (x : A) (l : list A) : len (x :: l) = (len l + 1)%Z.
Proof. unfold len. cbn [List.length]. lia. Qed.

Lemma len_nonneg {A : Type} (l : list A) : (0 <= len l)%Z.
Proof. unfold len. lia. Qed.

(** One step of the inner loop, as an equation. *)
Lemma nullifyCells_cons (p : Policy) (cell : string) (rest : record)
  (st : NullifyStats) :
  nullifyCells p (cell :: rest) st
  = let changed := IsNull p cell && negb (cell =? "") in
    let st1 :=
      {| RowsRead := RowsRead st;
         CellsChecked := incr (CellsChecked st);
         CellsNullified :=
           if changed then incr (CellsNullified st) else CellsNullified st |} in
    ((if IsNull p cell then "" else cell) :: fst (nullifyCells p rest st1),
     snd (nullifyCells p rest st1)).
Proof.
  cbn [nullifyCells].
  destruct (IsNull p cell); cbn [andb].
  - destruct (negb (cell =? "")); cbn zeta;
      destruct (nullifyCells p rest _); reflexivity.
  - cbn zeta. destruct (nullifyCells p rest _); reflexivity.
Qed.

Lemma nullifyCells_fst (p : Policy) (rec : record) :
  forall st, fst (nullifyCells p rec st) = nullified p rec.
Proof.
  induction rec as [ | cell rest IH ]; intros st.
  - reflexivity.
  - rewrite nullifyCells_cons. cbn [fst nullified map].
    rewrite IH. reflexivity.
Qed.

(** The counters after the inner loop, against unbounded counts [a] and [b]
    the counters stand for. *)
Lemma nullifyCells_counts (p : Policy) (rec : record) :
  forall (st : NullifyStats) (a b : Z),
    CellsChecked st = wrap a ->
    CellsNullified st = wrap b ->
    exists k : Z,
      (0 <= k <= len rec)%Z
      /\ RowsRead (snd (nullifyCells p rec st)) = RowsRead st
      /\ CellsChecked (snd (nullifyCells p rec st)) = wrap (a + len rec)
      /\ CellsNullified (snd (nullifyCells p rec st)) = wrap (b + k).
Proof.
  induction rec as [ | cell rest IH ]; intros st a b Ha Hb.
  - exists 0%Z. cbn [nullifyCells snd].
    change (len (@nil string)) with 0%Z. rewrite !Z.add_0_r.
    repeat split; try assumption; lia.
  - rewrite nullifyCells_cons. cbn zeta. cbn [snd].
    destruct (IsNull p cell && negb (cell =? "")).
    + destruct (IH {| RowsRead := RowsRead st;
                      CellsChecked := incr (CellsChecked st);
                      CellsNullified := incr (CellsNullified st) |}
                  (a + 1)%Z (b + 1)%Z) as (k & Hk & Hr & Hc & Hn).
      { cbn. rewrite Ha. apply incr_wrap. }
      { cbn. rewrite Hb. apply incr_wrap. }
      exists (k + 1)%Z. rewrite len_cons, Hr, Hc, Hn. cbn.
      repeat split; try lia; f_equal; lia.
    + destruct (IH {| RowsRead := RowsRead st;
                      CellsChecked := incr (CellsChecked st);
                      CellsNullified := CellsNullified st |}
                  (a + 1)%Z b) as (k & Hk & Hr & Hc & Hn).
      { cbn. rewrite Ha. apply incr_wrap. }
      { cbn. assumption. }
      exists k. rewrite len_cons, Hr, Hc, Hn. cbn.
      repeat split; try lia; f_equal; lia.
Qed.

Lemma settled_empty (p : Policy) : settled p "" = true.
Proof. unfold settled. cbn [String.eqb]. apply implb_true_r. Qed.

Lemma settled_nullified_cell (p : Policy) (cell : string) :
  settled p (if IsNull p cell then "" else cell) = true.
Proof.
  destruct (IsNull p cell) eqn:E.
  - apply settled_empty.
  - unfold settled. rewrite E. reflexivity.
Qed.

Lemma nullified_settled (p : Policy) (rec : record) :
  forallb (settled p) (nullified p rec) = true.
Proof.
  induction rec as [ | cell rest IH ]; [ reflexivity | ].
  cbn [nullified map forallb].
  rewrite settled_nullified_cell. exact IH.
Qed.

Lemma nullified_length (p : Policy) (rec : record) :
  List.length (nullified p rec) = List.length rec.
Proof. apply length_map. Qed.

Lemma nullified_allOff (rec : record) : nullified allOff rec = rec.
Proof.
  induction rec as [ | cell rest IH ]; [ reflexivity | ].
  cbn [nullified map]. rewrite IsNull_allOff. f_equal. exact IH.
Qed.

Lemma settled_allOff (rec : record) : forallb (settled allOff) rec = true.
Proof.
  induction rec as [ | cell rest IH ]; [ reflexivity | ].
  cbn [forallb]. unfold settled at 1. rewrite IsNull_allOff. exact IH.
Qed.

Lemma In_firstn {A : Type} (x : A) (n : nat) (l : list A) :
  In x (firstn n l) -> In x l.
Proof.
  intros H. rewrite <- (firstn_skipn n l).
  apply in_or_app. left. exact H.
Qed.

Lemma normalizeRow_settled (p : Policy) (rec : record) (width : nat) :
  forallb (settled p) rec = true ->
  forallb (settled p) (normalizeRow rec width) = true.
Proof.
  intros H. rewrite normalizeRow_eq, forallb_app.
  apply andb_true_intro. split.
  - rewrite forallb_forall in *. intros x Hx.
    apply H. eapply In_firstn. exact Hx.
  - rewrite forallb_forall. intros x Hx.
    apply repeat_spec in Hx. subst x. apply settled_empty.
Qed.

(** On settled cells the inner loop changes nothing and counts no change. *)
Lemma nullifyCells_settled (p : Policy) (rec : record) :
  forall st,
    forallb (settled p) rec = true ->
    CellsNullified (snd (nullifyCells p rec st)) = CellsNullified st.
Proof.
  induction rec as [ | cell rest IH ]; intros st H.
  - reflexivity.
  - cbn [forallb] in H. apply andb_prop in H. destruct H as [Hc Hrest].
    rewrite nullifyCells_cons. cbn zeta. cbn [snd].
    rewrite IH by assumption. cbn [CellsNullified].
    unfold settled in Hc.
    destruct (IsNull p cell); [ | reflexivity ].
    cbn [implb] in Hc. rewrite Hc. reflexivity.
Qed.

(** ** The outer loop *)

Lemma stats_flushOutput (w : Writer) (st : NullifyStats) :
  stats (flushOutput w st) = st.
Proof. unfold flushOutput. destruct (flushed w); reflexivity. Qed.

Lemma trace_flushOutput (w : Writer) (st : NullifyStats) :
  trace (flushOutput w st) = [EvFlush].
Proof. unfold flushOutput. destruct (flushed w); reflexivity. Qed.

Lemma processRow_eq (p : Policy) (h rec : record) (st : NullifyStats) :
  processRow p h rec st
  = (nullified p (normalizeRow rec (List.length h)),
     snd (processRow p h rec st)).
Proof.
  unfold processRow. cbn zeta.
  rewrite <- nullifyCells_fst with (st :=
    {| RowsRead := incr (RowsRead st);
       CellsChecked := CellsChecked st;
       CellsNullified := CellsNullified st |}).
  apply surjective_pairing.
Qed.

(** One turn of the outer loop, as an equation. *)
Lemma nullifyRows_Row (p : Policy) (h rec : record) (r : Reader) (w : Writer)
  (st : NullifyStats) :
  nullifyRows p h (Row rec :: r) w st
  = let rec' := nullified p (normalizeRow rec (List.length h)) in
    let st' := snd (processRow p h rec st) in
    emit (EvRead (Ok rec))
      match csv_Write w rec' with
      | (Some e, _) =>
          emit (EvWrite rec' (Some e))
            {| stats := st'; err := Some (Errorf "write row" e); trace := [] |}
      | (None, w') => emit (EvWrite rec' None) (nullifyRows p h r w' st')
      end.
Proof.
  cbn [nullifyRows]. rewrite processRow_eq. reflexivity.
Qed.

Lemma processRow_counts (p : Policy) (h rec : record) (st : NullifyStats)
  (n a b : Z) :
  RowsRead st = wrap n ->
  CellsChecked st = wrap a ->
  CellsNullified st = wrap b ->
  exists k : Z,
    (0 <= k <= len h)%Z
    /\ RowsRead (snd (processRow p h rec st)) = wrap (n + 1)
    /\ CellsChecked (snd (processRow p h rec st)) = wrap (a + len h)
    /\ CellsNullified (snd (processRow p h rec st)) = wrap (b + k).
Proof.
  intros Hn Ha Hb. unfold processRow. cbn zeta.
  destruct (nullifyCells_counts p (normalizeRow rec (List.length h))
              {| RowsRead := incr (RowsRead st);
                 CellsChecked := CellsChecked st;
                 CellsNullified := CellsNullified st |} a b Ha Hb)
    as (k & Hk & Hr & Hc & Hcn).
  assert (Hlen : len (normalizeRow rec (List.length h)) = len h).
  { unfold len. rewrite normalizeRow_length. reflexivity. }
  rewrite Hlen in *.
  exists k. rewrite Hr, Hc, Hcn. cbn [RowsRead].
  rewrite Hn, incr_wrap. auto.
Qed.

Lemma processRow_settled (p : Policy) (h rec : record) (st : NullifyStats) :
  forallb (settled p) rec = true ->
  CellsNullified (snd (processRow p h rec st)) = CellsNullified st.
Proof.
  intros H. unfold processRow. cbn zeta.
  rewrite nullifyCells_settled; [ reflexivity | ].
  apply normalizeRow_settled. exact H.
Qed.

(** The counters after the outer loop: [m] rows were counted, each with
    [len headers] cells, [k] of them changed. *)
Lemma nullifyRows_counts (p : Policy) (h : record) (r : Reader) :
  forall (w : Writer) (st : NullifyStats) (n a b : Z),
    RowsRead st = wrap n ->
    CellsChecked st = wrap a ->
    CellsNullified st = wrap b ->
    exists m k : Z,
      (0 <= m <= len r)%Z /\ (0 <= k <= m * len h)%Z
      /\ RowsRead (stats (nullifyRows p h r w st)) = wrap (n + m)
      /\ CellsChecked (stats (nullifyRows p h r w st)) = wrap (a + m * len h)
      /\ CellsNullified (stats (nullifyRows p h r w st)) = wrap (b + k).
Proof.
  induction r as [ | [rec | e] r IH ]; intros w st n a b Hn Ha Hb.
  - exists 0%Z, 0%Z. cbn [nullifyRows emit stats].
    rewrite stats_flushOutput, Z.mul_0_l, !Z.add_0_r.
    change (len (@nil ReadItem)) with 0%Z. repeat split; try assumption; lia.
  - rewrite nullifyRows_Row. cbn zeta.
    destruct (processRow_counts p h rec st n a b Hn Ha Hb)
      as (k1 & Hk1 & Hr1 & Hc1 & Hn1).
    pose proof (len_nonneg r) as Hr. pose proof (len_nonneg h) as Hh.
    destruct (csv_Write w _) as [[e | ] w'].
    + exists 1%Z, k1. cbn [emit stats]. rewrite len_cons, Hr1, Hc1, Hn1.
      repeat split; try lia; f_equal; lia.
    + destruct (IH w' _ _ _ _ Hr1 Hc1 Hn1) as (m & k & Hm & Hk & H1 & H2 & H3).
      exists (m + 1)%Z, (k1 + k)%Z. cbn [emit stats].
      rewrite len_cons, H1, H2, H3.
      repeat split; try lia; f_equal; lia.
  - exists 0%Z, 0%Z. cbn [nullifyRows emit stats].
    pose proof (len_nonneg r) as Hr.
    rewrite len_cons, Z.mul_0_l, !Z.add_0_r.
    destruct (is_EOF e); [ rewrite stats_flushOutput | cbn [stats] ];
      repeat split; try assumption; lia.
Qed.

(** An input of settled cells leaves the count of changed cells alone. *)
Lemma nullifyRows_settled (p : Policy) (h : record) (r : Reader) :
  forall (w : Writer) (st : NullifyStats),
    forallb (settledItem p) r = true ->
    CellsNullified (stats (nullifyRows p h r w st)) = CellsNullified st.
Proof.
  induction r as [ | [rec | e] r IH ]; intros w st H.
  - cbn [nullifyRows emit stats]. rewrite stats_flushOutput. reflexivity.
  - cbn [forallb settledItem] in H. apply andb_prop in H.
    destruct H as [Hrec Hr].
    rewrite nullifyRows_Row. cbn zeta.
    destruct (csv_Write w _) as [[e | ] w']; cbn [emit stats].
    + apply processRow_settled. exact Hrec.
    + rewrite IH by exact Hr. apply processRow_settled. exact Hrec.
  - cbn [nullifyRows emit stats].
    destruct (is_EOF e); [ rewrite stats_flushOutput | ]; reflexivity.
Qed.

(** Every record the loop hands to the writer is the normalised record it
    read just before, with the cells the policy matches emptied. *)
Lemma nullifyRows_attempted (p : Policy) (h : record) (r : Reader) :
  forall (w : Writer) (st : NullifyStats),
    attempted (trace (nullifyRows p h r w st))
    = map (fun rec => nullified p (normalizeRow rec (List.length h)))
        (readBack (trace (nullifyRows p h r w st))).
Proof.
  induction r as [ | [rec | e] r IH ]; intros w st.
  - cbn [nullifyRows emit trace]. rewrite trace_flushOutput. reflexivity.
  - rewrite nullifyRows_Row. cbn zeta.
    destruct (csv_Write w _) as [[e | ] w'];
      cbn [emit trace attempted readBack map]; [ reflexivity | ].
    rewrite IH. reflexivity.
  - cbn [nullifyRows emit trace].
    destruct (is_EOF e); [ rewrite trace_flushOutput | ]; reflexivity.
Qed.

(** Every record the loop wrote holds settled cells only. *)
Lemma nullifyRows_written (p : Policy) (h : record) (r : Reader) :
  forall (w : Writer) (st : NullifyStats),
    forallb (settledItem p)
      (map Row (written (trace (nullifyRows p h r w st)))) = true.
Proof.
  induction r as [ | [rec | e] r IH ]; intros w st.
  - cbn [nullifyRows emit trace]. rewrite trace_flushOutput. reflexivity.
  - rewrite nullifyRows_Row. cbn zeta.
    destruct (csv_Write w _) as [[e | ] w'];
      cbn [emit trace written map forallb settledItem]; [ reflexivity | ].
    rewrite nullified_settled. apply IH.
  - cbn [nullifyRows emit trace].
    destruct (is_EOF e); [ rewrite trace_flushOutput | ]; reflexivity.
Qed.

Lemma nullifyCells_RowsRead (p : Policy) (rec : record) :
  forall st, RowsRead (snd (nullifyCells p rec st)) = RowsRead st.
Proof.
  induction rec as [ | cell rest IH ]; intros st; [ reflexivity | ].
  rewrite nullifyCells_cons. cbn zeta. cbn [snd].
  rewrite IH. reflexivity.
Qed.

Lemma processRow_RowsRead (p : Policy) (h rec : record) (st : NullifyStats) :
  RowsRead (snd (processRow p h rec st)) = incr (RowsRead st).
Proof.
  unfold processRow. cbn zeta. rewrite nullifyCells_RowsRead. reflexivity.
Qed.

Lemma processed_cons (p : Policy) (h rec : record) (rows : list record)
  (st : NullifyStats) :
  processed p h (rec :: rows) st
  = processed p h rows (snd (processRow p h rec st)).
Proof. reflexivity. Qed.

Lemma processed_RowsRead (p : Policy) (h : record) (rows : list record) :
  forall (st : NullifyStats) (n : Z),
    RowsRead st = wrap n ->
    RowsRead (processed p h rows st) = wrap (n + len rows).
Proof.
  induction rows as [ | rec rows IH ]; intros st n Hn.
  - change (len (@nil record)) with 0%Z.
    rewrite Z.add_0_r. exact Hn.
  - rewrite processed_cons, (IH _ (n + 1)%Z).
    + rewrite len_cons. f_equal. lia.
    + rewrite processRow_RowsRead, Hn. apply incr_wrap.
Qed.

Lemma accepts_S (w : Writer) (n : nat) (rec : record) :
  accepts w (S n) = true ->
  fst (csv_Write w rec) = None /\ accepts (snd (csv_Write w rec)) n = true.
Proof.
  unfold accepts, csv_Write.
  destruct (writes w) as [ | [e | ] rest ] eqn:E;
    cbn [firstn forallb fst snd writes].
  - intros _. split; [ reflexivity | ]. rewrite E. destruct n; reflexivity.
  - intros H. discriminate H.
  - intros H. split; [ reflexivity | exact H ].
Qed.

(** The loop on an input whose rows [rows] read, and whose next read fails:
    the rows are processed and written, the failed read ends the run. *)
Lemma nullifyRows_read_error (p : Policy) (h : record) (rows : list record)
  (e : error) (rest : Reader) :
  is_EOF e = false ->
  forall (w : Writer) (st : NullifyStats),
    accepts w (List.length rows) = true ->
    nullifyRows p h (map Row rows ++ Bad e :: rest) w st
    = {| stats := processed p h rows st;
         err := Some (Errorf "read row" e);
         trace := flat_map (turn p h) rows ++ [EvRead (Err e)] |}.
Proof.
  intros He. induction rows as [ | rec rows IH ]; intros w st Hw.
  - cbn [map app nullifyRows]. rewrite He. reflexivity.
  - cbn [map app]. rewrite nullifyRows_Row. cbn zeta.
    cbn [List.length] in Hw.
    destruct (accepts_S w (List.length rows)
                (nullified p (normalizeRow rec (List.length h))) Hw)
      as [Hnone Hw'].
    destruct (csv_Write w _) as [o w']. cbn [fst snd] in Hnone, Hw'.
    subst o. rewrite IH by exact Hw'. reflexivity.
Qed.

(** ** [NullifyFile] *)

Lemma written_app (a b : list Event) :
  written (a ++ b) = written a ++ written b.
Proof.
  induction a as [ | [res | rec [e | ] | ] a IH ]; cbn [app written];
    rewrite ?IH; reflexivity.
Qed.

Lemma attempted_app (a b : list Event) :
  attempted (a ++ b) = attempted a ++ attempted b.
Proof.
  induction a as [ | [res | rec o | ] a IH ]; cbn [app attempted];
    rewrite ?IH; reflexivity.
Qed.

Lemma readBack_app (a b : list Event) :
  readBack (a ++ b) = readBack a ++ readBack b.
Proof.
  induction a as [ | [[rec | e] | rec o | ] a IH ]; cbn [app readBack];
    rewrite ?IH; reflexivity.
Qed.

(** The counters a run returns, whatever its outcome: [m] rows were counted,
    each with as many cells as the header has fields, [k] cells changed. *)
Lemma NullifyFile_counts (fs : FileSystem) (inputPath outputPath : string)
  (p : Policy) :
  exists m k : Z,
    (0 <= m <= len (tl (inputOf fs inputPath)))%Z
    /\ (0 <= k <= m * len (headerOf (inputOf fs inputPath)))%Z
    /\ RowsRead (stats (NullifyFile fs inputPath outputPath p)) = wrap m
    /\ CellsChecked (stats (NullifyFile fs inputPath outputPath p))
       = wrap (m * len (headerOf (inputOf fs inputPath)))
    /\ CellsNullified (stats (NullifyFile fs inputPath outputPath p)) = wrap k.
Proof.
  assert (Hzero : forall (bound : Z) (h : record) (e : error),
    (0 <= bound)%Z ->
    exists m k : Z,
      (0 <= m <= bound)%Z /\ (0 <= k <= m * len h)%Z
      /\ RowsRead (stats (failed e)) = wrap m
      /\ CellsChecked (stats (failed e)) = wrap (m * len h)
      /\ CellsNullified (stats (failed e)) = wrap k).
  { intros bound h e Hb. exists 0%Z, 0%Z.
    repeat split; try reflexivity; lia. }
  unfold NullifyFile, inputOf.
  destruct (os_Open fs inputPath) as [r | e];
    [ | apply Hzero; apply len_nonneg ].
  destruct (os_Create fs outputPath) as [w | e];
    [ | apply Hzero; apply len_nonneg ].
  unfold deferFlush. cbn [stats].
  destruct r as [ | [h | e] r ]; cbn [csv_Read emit stats];
    try (apply Hzero; apply len_nonneg).
  unfold headerOf. cbn [csv_Read tl].
  destruct (csv_Write w h) as [[e | ] w']; cbn [emit stats];
    [ apply Hzero; apply len_nonneg | ].
  destruct (nullifyRows_counts p h r w' noStats 0 0 0)
    as (m & k & Hm & Hk & H1 & H2 & H3); try reflexivity.
  exists m, k. rewrite H1, H2, H3. repeat split; try lia.
Qed.

(** The same relation in Go's own arithmetic: it holds on every run, with no
    bound on the input. *)
Lemma counting_modular (fs : FileSystem) (inputPath outputPath : string)
  (p : Policy) :
  CellsChecked (stats (NullifyFile fs inputPath outputPath p))
  = mul (RowsRead (stats (NullifyFile fs inputPath outputPath p)))
      (len (headerOf (inputOf fs inputPath))).
Proof.
  destruct (NullifyFile_counts fs inputPath outputPath p)
    as (m & k & _ & _ & H1 & H2 & _).
  rewrite H1, H2, mul_wrap_l. reflexivity.
Qed.

(** C1.  On every run of [NullifyFile], whether it ends with or without an
    error, the statistics returned satisfy
    [CellsNullified <= CellsChecked] and [CellsChecked = RowsRead * width],
    [width] being the number of fields of the header; the input is one whose
    cells an [int] can count. *)
Theorem counting_invariant (fs : FileSystem) (inputPath outputPath : string)
  (p : Policy) :
  let run := NullifyFile fs inputPath outputPath p in
  let width := len (headerOf (inputOf fs inputPath)) in
  (len (tl (inputOf fs inputPath)) * width <= MaxInt)%Z ->
  (CellsNullified (stats run) <= CellsChecked (stats run))%Z
  /\ CellsChecked (stats run) = (RowsRead (stats run) * width)%Z.
Proof.
  intros run width Hbound. subst run width.
  destruct (NullifyFile_counts fs inputPath outputPath p)
    as (m & k & Hm & Hk & H1 & H2 & H3).
  rewrite H1, H2, H3.
  pose proof (len_nonneg (headerOf (inputOf fs inputPath))) as Hw.
  set (width := len (headerOf (inputOf fs inputPath))) in *.
  set (rows := len (tl (inputOf fs inputPath))) in *.
  assert (Hcells : (0 <= m * width <= MaxInt)%Z) by nia.
  unfold MaxInt in *.
  rewrite (wrap_small (m * width)) by (unfold MinInt, MaxInt; lia).
  rewrite (wrap_small k) by (unfold MinInt, MaxInt; lia).
  split; [ lia | ].
  destruct (Z.eq_dec width 0) as [H0 | H0].
  - rewrite H0, !Z.mul_0_r. reflexivity.
  - rewrite (wrap_small m) by (unfold MinInt, MaxInt; nia). reflexivity.
Qed.

(** The records a run wrote after the header hold settled cells only. *)
Lemma NullifyFile_written (fs : FileSystem) (inputPath outputPath : string)
  (p : Policy) :
  forallb (settledItem p)
    (map Row (tl (written (trace (NullifyFile fs inputPath outputPath p)))))
  = true.
Proof.
  unfold NullifyFile.
  destruct (os_Open fs inputPath) as [r | e]; [ | reflexivity ].
  destruct (os_Create fs outputPath) as [w | e]; [ | reflexivity ].
  unfold deferFlush. cbn [trace]. rewrite written_app, app_nil_r.
  destruct r as [ | [h | e] r ]; cbn [csv_Read emit trace written];
    try reflexivity.
  destruct (csv_Write w h) as [[e | ] w']; cbn [emit trace written tl];
    [ reflexivity | ].
  apply nullifyRows_written.
Qed.

(** A run on an input whose data cells are settled counts no change. *)
Lemma NullifyFile_settled (fs : FileSystem) (inputPath outputPath : string)
  (p : Policy) :
  forallb (settledItem p) (tl (inputOf fs inputPath)) = true ->
  CellsNullified (stats (NullifyFile fs inputPath outputPath p)) = 0%Z.
Proof.
  unfold NullifyFile, inputOf.
  destruct (os_Open fs inputPath) as [r | e]; [ | reflexivity ].
  destruct (os_Create fs outputPath) as [w | e]; [ | reflexivity ].
  unfold deferFlush. cbn [stats].
  destruct r as [ | [h | e] r ]; cbn [csv_Read emit stats tl];
    try reflexivity.
  destruct (csv_Write w h) as [[e | ] w']; cbn [emit stats];
    [ reflexivity | ].
  intros H. rewrite nullifyRows_settled by exact H. reflexivity.
Qed.

(** C6.  Running [NullifyFile] a second time, with the same policy, on the
    records a first run without error wrote, reports no nullified cell. *)
Theorem nullify_idempotent (fs : FileSystem) (inputPath outputPath : string)
  (p : Policy) (fs2 : FileSystem) (inputPath2 outputPath2 : string) :
  let run1 := NullifyFile fs inputPath outputPath p in
  err run1 = None ->
  os_Open fs2 inputPath2 = Ok (map Row (written (trace run1))) ->
  CellsNullified (stats (NullifyFile fs2 inputPath2 outputPath2 p)) = 0%Z.
Proof.
  intros run1 _ Hopen.
  apply NullifyFile_settled.
  unfold inputOf. rewrite Hopen.
  pose proof (NullifyFile_written fs inputPath outputPath p) as H.
  fold run1 in H.
  destruct (written (trace run1)) as [ | h rows ]; [ reflexivity | exact H ].
Qed.

(** The same holds when the second run gets only some of these records, in
    whatever order, and whichever it takes as the header: a reader that
    skips lines or stops early changes nothing. *)
Lemma rerun_on_written (fs : FileSystem) (inputPath outputPath : string)
  (p : Policy) (fs2 : FileSystem) (inputPath2 outputPath2 : string)
  (r2 : Reader) :
  let run1 := NullifyFile fs inputPath outputPath p in
  os_Open fs2 inputPath2 = Ok r2 ->
  (forall rec, In (Row rec) (tl r2) -> In rec (tl (written (trace run1)))) ->
  CellsNullified (stats (NullifyFile fs2 inputPath2 outputPath2 p)) = 0%Z.
Proof.
  intros run1 Hopen Hsub.
  apply NullifyFile_settled.
  unfold inputOf. rewrite Hopen.
  pose proof (NullifyFile_written fs inputPath outputPath p) as H.
  fold run1 in H. rewrite forallb_forall in H.
  apply forallb_forall. intros [rec | e] Hin; [ | reflexivity ].
  apply (H (Row rec)). apply in_map. apply Hsub. exact Hin.
Qed.

(** C7.  When the header is read and written without error, the first two
    calls of the run are the read of the header and the write of that same
    record; the loop over the data rows comes after them.  This holds for
    every policy. *)
Theorem header_fidelity (fs : FileSystem) (inputPath outputPath : string)
  (p : Policy) (r r' : Reader) (w : Writer) (headers : record) :
  os_Open fs inputPath = Ok r ->
  os_Create fs outputPath = Ok w ->
  csv_Read r = (Ok headers, r') ->
  fst (csv_Write w headers) = None ->
  let run := NullifyFile fs inputPath outputPath p in
  let loop := nullifyRows p headers r' (snd (csv_Write w headers)) noStats in
  trace run
  = EvRead (Ok headers) :: EvWrite headers None :: trace loop ++ [EvFlush]
  /\ written (trace run) = headers :: written (trace loop).
Proof.
  intros Hopen Hcreate Hread Hwrite run loop. subst run loop.
  unfold NullifyFile. rewrite Hopen, Hcreate, Hread.
  destruct (csv_Write w headers) as [o w']. cbn [fst snd] in *. subst o.
  unfold deferFlush. cbn [emit trace app written].
  split; [ reflexivity | ].
  rewrite written_app, app_nil_r. reflexivity.
Qed.

(** C8.  When, after the header and the rows [rows], a read fails with an
    error other than end of input, the run stops at that read: it returns the
    error wrapped as "read row", and the statistics of the rows processed
    before it; the failed read changes no counter and nothing is read or
    written after it. *)
Theorem read_error_aborts (fs : FileSystem) (inputPath outputPath : string)
  (p : Policy) (w : Writer) (headers : record) (rows : list record)
  (e : error) (rest : Reader) :
  os_Open fs inputPath = Ok (Row headers :: map Row rows ++ Bad e :: rest) ->
  os_Create fs outputPath = Ok w ->
  accepts w (S (List.length rows)) = true ->
  is_EOF e = false ->
  let run := NullifyFile fs inputPath outputPath p in
  err run = Some (Errorf "read row" e)
  /\ option_map Error (err run) = Some ("read row: " ++ Error e)%string
  /\ stats run = processed p headers rows noStats
  /\ RowsRead (stats run) = wrap (len rows)
  /\ trace run
     = EvRead (Ok headers) :: EvWrite headers None
       :: flat_map (turn p headers) rows ++ [EvRead (Err e); EvFlush].
Proof.
  intros Hopen Hcreate Hw He run. subst run.
  unfold NullifyFile. rewrite Hopen, Hcreate. cbn [csv_Read].
  destruct (accepts_S w (List.length rows) headers Hw) as [Hnone Hw'].
  destruct (csv_Write w headers) as [o w']. cbn [fst snd] in Hnone, Hw'.
  subst o.
  rewrite (nullifyRows_read_error p headers rows e rest He w' noStats Hw').
  unfold deferFlush. cbn [emit stats err trace].
  repeat split.
  - rewrite (processed_RowsRead p headers rows noStats 0) by reflexivity.
    reflexivity.
  - cbn [app]. rewrite <- app_assoc. reflexivity.
Qed.

(** What a run read and what it handed to its writer: the header as it is,
    every row after it normalised and with the matching cells emptied. *)
Lemma NullifyFile_attempted (fs : FileSystem) (inputPath outputPath : string)
  (p : Policy) :
  let run := NullifyFile fs inputPath outputPath p in
  let headers := headerOf (inputOf fs inputPath) in
  (readBack (trace run) = [] /\ attempted (trace run) = [])
  \/ (exists rows,
        readBack (trace run) = headers :: rows
        /\ attempted (trace run)
           = headers
             :: map (fun rec =>
                       nullified p (normalizeRow rec (List.length headers)))
                  rows).
Proof.
  cbn zeta. unfold NullifyFile, inputOf.
  destruct (os_Open fs inputPath) as [r | e]; [ | left; split; reflexivity ].
  destruct (os_Create fs outputPath) as [w | e];
    [ | left; split; reflexivity ].
  unfold deferFlush. cbn [trace].
  rewrite readBack_app, attempted_app, !app_nil_r.
  destruct r as [ | [h | e] r ]; cbn [csv_Read emit trace readBack attempted];
    try (left; split; reflexivity).
  right. unfold headerOf. cbn [csv_Read].
  destruct (csv_Write w h) as [[e | ] w'];
    cbn [emit trace failed readBack attempted].
  - exists []. split; reflexivity.
  - eexists. split; [ reflexivity | ].
    rewrite nullifyRows_attempted. reflexivity.
Qed.

(** C10.  With every switch off, [IsNull] is false on every string, the
    empty one too; a run under that policy hands to its writer each record it
    read with its cells as they were (normalised to the header's width), and
    reports no nullified cell. *)
Theorem allOff_changes_nothing :
  (forall s : string, IsNull allOff s = false)
  /\ (forall (fs : FileSystem) (inputPath outputPath : string),
        let run := NullifyFile fs inputPath outputPath allOff in
        let width := List.length (headerOf (inputOf fs inputPath)) in
        CellsNullified (stats run) = 0%Z
        /\ attempted (trace run)
           = map (fun rec => normalizeRow rec width) (readBack (trace run))).
Proof.
  split; [ exact IsNull_allOff | ].
  intros fs inputPath outputPath run width. subst run width. split.
  - apply NullifyFile_settled.
    induction (tl (inputOf fs inputPath)) as [ | [rec | e] r IH ];
      cbn [forallb settledItem]; rewrite ?settled_allOff; assumption
      || reflexivity.
  - destruct (NullifyFile_attempted fs inputPath outputPath allOff)
      as [[Hr Ha] | (rows & Hr & Ha)]; rewrite Hr, Ha.
    + reflexivity.
    + cbn [map]. rewrite normalizeRow_id. f_equal.
      apply map_ext. intros rec. apply nullified_allOff.
Qed.

(** C4, as the code has it.  Scenario A: under the blanks-only policy, the
    input with header [a,b] and rows ["1",""] and [" ","2"] gives the output
    rows [1,] and [,2] and the statistics 2 rows read, 4 cells checked and
    1 cell nullified: the empty cell of the first row matches the policy and
    counts as checked, not as changed. *)
Theorem scenario_A :
  let run := NullifyFile (holding scenarioA) "in.csv" "out.csv" blanksOnly in
  written (trace run) = [ ["a"; "b"]; ["1"; ""]; [""; "2"] ]
  /\ map (String.concat ",") (tl (written (trace run))) = [ "1,"; ",2" ]
  /\ err run = None
  /\ stats run
     = {| RowsRead := 2; CellsChecked := 4; CellsNullified := 1 |}.
Proof.
  cbn zeta. repeat split; vm_compute; reflexivity.
Qed.

(** ** Runs, by outcome *)

Lemma csv_Write_accepts (w : Writer) (n : nat) (rec : record) :
  accepts w (S n) = true ->
  csv_Write w rec = (None, after w 1) /\ accepts (after w 1) n = true.
Proof.
  destruct w as [ws fl]. unfold accepts, csv_Write, after.
  cbn [writes flushed].
  destruct ws as [ | [e | ] rest ]; cbn [firstn forallb skipn].
  - intros _. split; [ reflexivity | ]. destruct n; reflexivity.
  - intros H. discriminate H.
  - intros H. split; [ reflexivity | exact H ].
Qed.

Lemma after_0 (w : Writer) : after w 0 = w.
Proof. destruct w. reflexivity. Qed.

Lemma after_S (w : Writer) (n : nat) : after (after w 1) n = after w (S n).
Proof.
  unfold after. cbn [writes flushed]. f_equal.
  rewrite skipn_skipn, Nat.add_1_r. reflexivity.
Qed.

Lemma prepend_nil (run : Run) : prepend [] run = run.
Proof. destruct run. reflexivity. Qed.

Lemma emit_prepend (ev : Event) (evs : list Event) (run : Run) :
  emit ev (prepend evs run) = prepend (ev :: evs) run.
Proof. reflexivity. Qed.

(** The loop on an input that starts with the rows [rows], all of which the
    writer takes: a full turn for each, then the loop on what is left. *)
Lemma nullifyRows_prefix (p : Policy) (h : record) (rows : list record)
  (r : Reader) :
  forall (w : Writer) (st : NullifyStats),
    accepts w (List.length rows) = true ->
    nullifyRows p h (map Row rows ++ r) w st
    = prepend (flat_map (turn p h) rows)
        (nullifyRows p h r (after w (List.length rows))
           (processed p h rows st)).
Proof.
  induction rows as [ | rec rows IH ]; intros w st Hw.
  - cbn [map app List.length flat_map processed fold_left].
    rewrite after_0, prepend_nil. reflexivity.
  - cbn [map app]. rewrite nullifyRows_Row. cbn zeta.
    cbn [List.length] in *.
    destruct (csv_Write_accepts w (List.length rows)
                (nullified p (normalizeRow rec (List.length h))) Hw)
      as [Hwrite Hw'].
    rewrite Hwrite, IH by exact Hw'.
    rewrite after_S, processed_cons. reflexivity.
Qed.

Lemma written_turns (p : Policy) (h : record) (rows : list record) :
  written (flat_map (turn p h) rows) = map (outputRow p h) rows.
Proof.
  induction rows as [ | rec rows IH ]; [ reflexivity | ].
  cbn [flat_map turn app written map]. rewrite IH. reflexivity.
Qed.

(** The counters after the rows [rows], against unbounded counts. *)
Lemma processed_counts (p : Policy) (h : record) (rows : list record) :
  forall (st : NullifyStats) (n a b : Z),
    RowsRead st = wrap n ->
    CellsChecked st = wrap a ->
    CellsNullified st = wrap b ->
    exists k : Z,
      (0 <= k <= len rows * len h)%Z
      /\ RowsRead (processed p h rows st) = wrap (n + len rows)
      /\ CellsChecked (processed p h rows st) = wrap (a + len rows * len h)
      /\ CellsNullified (processed p h rows st) = wrap (b + k).
Proof.
  induction rows as [ | rec rows IH ]; intros st n a b Hn Ha Hb.
  - exists 0%Z. change (len (@nil record)) with 0%Z.
    rewrite Z.mul_0_l, !Z.add_0_r. cbn [processed fold_left].
    repeat split; try assumption; lia.
  - rewrite processed_cons.
    destruct (processRow_counts p h rec st n a b Hn Ha Hb)
      as (k1 & Hk1 & H1 & H2 & H3).
    destruct (IH _ _ _ _ H1 H2 H3) as (k & Hk & H4 & H5 & H6).
    pose proof (len_nonneg h). pose proof (len_nonneg rows).
    exists (k1 + k)%Z. rewrite len_cons, H4, H5, H6.
    repeat split; try nia; f_equal; lia.
Qed.

Lemma skipn_nth_error {A : Type} (l : list A) (n : nat) (x : A) :
  nth_error l n = Some x -> skipn n l = x :: skipn (S n) l.
Proof.
  revert l. induction n as [ | n IH ]; intros [ | y l ] H;
    try discriminate H.
  - cbn in H. injection H as ->. reflexivity.
  - cbn [nth_error] in H. cbn [skipn]. apply IH. exact H.
Qed.

(** A run on a header and rows that are all read and all written. *)
Lemma NullifyFile_all_rows (fs : FileSystem) (inputPath outputPath : string)
  (p : Policy) (w : Writer) (headers : record) (rows : list record) :
  os_Open fs inputPath = Ok (Row headers :: map Row rows) ->
  os_Create fs outputPath = Ok w ->
  accepts w (S (List.length rows)) = true ->
  let run := NullifyFile fs inputPath outputPath p in
  err run = option_map (Errorf "flush output csv") (flushed w)
  /\ stats run = processed p headers rows noStats
  /\ RowsRead (stats run) = wrap (len rows)
  /\ CellsChecked (stats run) = wrap (len rows * len headers)
  /\ written (trace run) = headers :: map (outputRow p headers) rows.
Proof.
  intros Hopen Hcreate Hw run. subst run.
  unfold NullifyFile. rewrite Hopen, Hcreate. cbn [csv_Read].
  destruct (csv_Write_accepts w (List.length rows) headers Hw)
    as [Hwrite Hw'].
  rewrite Hwrite.
  rewrite <- (app_nil_r (map Row rows)).
  rewrite nullifyRows_prefix by exact Hw'.
  cbn [nullifyRows]. unfold deferFlush, prepend, flushOutput.
  cbn [flushed after].
  destruct (processed_counts p headers rows noStats 0 0 0)
    as (k & _ & H1 & H2 & _); try reflexivity.
  assert (Hwr : forall tail : list Event,
            written tail = [] ->
            written (EvRead (Ok headers) :: EvWrite headers None
                     :: (flat_map (turn p headers) rows ++ tail) ++ [EvFlush])
            = headers :: map (outputRow p headers) rows).
  { intros tail Ht. cbn [written].
    rewrite !written_app, written_turns, Ht, !app_nil_r. reflexivity. }
  destruct (flushed w) as [e | ]; cbn [emit stats err trace option_map].
  - repeat split; [ exact H1 | exact H2 | apply Hwr; reflexivity ].
  - repeat split; [ exact H1 | exact H2 | apply Hwr; reflexivity ].
Qed.

(** X1.  A run whose input is a header and the rows [rows], all read and all
    written: every row is counted, the output holds the header and each row
    in its output form, in the order read, and the only error left is the one
    the final flush reports, wrapped as "flush output csv". *)
Theorem complete_run (fs : FileSystem) (inputPath outputPath : string)
  (p : Policy) (w : Writer) (headers : record) (rows : list record) :
  os_Open fs inputPath = Ok (Row headers :: map Row rows) ->
  os_Create fs outputPath = Ok w ->
  accepts w (S (List.length rows)) = true ->
  let run := NullifyFile fs inputPath outputPath p in
  err run = option_map (Errorf "flush output csv") (flushed w)
  /\ stats run = processed p headers rows noStats
  /\ RowsRead (stats run) = wrap (len rows)
  /\ CellsChecked (stats run) = wrap (len rows * len headers)
  /\ written (trace run) = headers :: map (outputRow p headers) rows.
Proof.
  intros Hopen Hcreate Hw.
  exact (NullifyFile_all_rows fs inputPath outputPath p w headers rows
           Hopen Hcreate Hw).
Qed.

(** X2.  A run whose writer fails on a data row, after the header and the
    rows [rows] were written: the run stops there with the error wrapped as
    "write row".  The row that was not written is counted in the statistics
    all the same; it is not in the output. *)
Theorem write_error_aborts (fs : FileSystem) (inputPath outputPath : string)
  (p : Policy) (w : Writer) (headers : record) (rows : list record)
  (rec : record) (rest : Reader) (e : error) :
  os_Open fs inputPath
  = Ok (Row headers :: map Row rows ++ Row rec :: rest) ->
  os_Create fs outputPath = Ok w ->
  accepts w (S (List.length rows)) = true ->
  nth_error (writes w) (S (List.length rows)) = Some (Some e) ->
  let run := NullifyFile fs inputPath outputPath p in
  err run = Some (Errorf "write row" e)
  /\ stats run = processed p headers (rows ++ [rec]) noStats
  /\ RowsRead (stats run) = wrap (len rows + 1)
  /\ written (trace run) = headers :: map (outputRow p headers) rows
  /\ trace run
     = EvRead (Ok headers) :: EvWrite headers None
       :: flat_map (turn p headers) rows
          ++ [ EvRead (Ok rec); EvWrite (outputRow p headers rec) (Some e);
               EvFlush ].
Proof.
  intros Hopen Hcreate Hw Hfail run. subst run.
  unfold NullifyFile. rewrite Hopen, Hcreate. cbn [csv_Read].
  destruct (csv_Write_accepts w (List.length rows) headers Hw)
    as [Hwrite Hw'].
  rewrite Hwrite, nullifyRows_prefix by exact Hw'.
  rewrite after_S, nullifyRows_Row. cbn zeta.
  assert (Hw2 : csv_Write (after w (S (List.length rows)))
                  (nullified p (normalizeRow rec (List.length headers)))
                = (Some e,
                   {| writes := skipn (S (S (List.length rows))) (writes w);
                      flushed := flushed w |})).
  { unfold csv_Write, after. cbn [writes flushed].
    rewrite (skipn_nth_error _ _ _ Hfail). reflexivity. }
  rewrite Hw2.
  unfold deferFlush, prepend. cbn [emit stats err trace].
  assert (Hst : snd (processRow p headers rec
                       (processed p headers rows noStats))
                = processed p headers (rows ++ [rec]) noStats).
  { unfold processed. rewrite fold_left_app. reflexivity. }
  rewrite Hst.
  repeat split.
  - rewrite (processed_RowsRead p headers (rows ++ [rec]) noStats 0)
      by reflexivity.
    f_equal. unfold len. rewrite length_app. cbn [List.length]. lia.
  - rewrite written_app. cbn [written].
    rewrite written_app, written_turns. cbn [written].
    rewrite !app_nil_r. reflexivity.
  - unfold outputRow. cbn [app]. rewrite <- app_assoc. reflexivity.
Qed.

(** ** [normalizeRow], cell by cell *)

Lemma normalizeRow_nth_eq (row : record) (width i : nat) :
  nth i (normalizeRow row width) ""
  = if (i <? width)%nat then nth i row "" else "".
Proof.
  rewrite normalizeRow_eq.
  destruct (Nat.ltb_spec i width) as [Hlt | Hge].
  - destruct (Nat.lt_ge_cases i (List.length row)) as [Hin | Hout].
    + rewrite app_nth1 by (rewrite length_firstn; lia).
      rewrite nth_firstn.
      destruct (Nat.ltb_spec i width); [ reflexivity | lia ].
    + rewrite app_nth2 by (rewrite length_firstn; lia).
      rewrite nth_repeat, nth_overflow by lia. reflexivity.
  - apply nth_overflow.
    rewrite length_app, length_firstn, repeat_length. lia.
Qed.

(** X3.  Field [i] of [normalizeRow row width] is field [i] of [row] when
    [i] is below both [width] and the length of [row], and the empty string
    otherwise: inside the width a missing field reads as empty, beyond the
    width nothing is left. *)
Theorem normalizeRow_nth (row : record) (width i : nat) :
  nth i (normalizeRow row width) ""
  = if (i <? width)%nat && (i <? List.length row)%nat then nth i row ""
    else "".
Proof.
  rewrite normalizeRow_nth_eq.
  destruct (Nat.ltb_spec i width) as [Hlt | Hge]; cbn [andb];
    [ | reflexivity ].
  destruct (Nat.ltb_spec i (List.length row)) as [Hin | Hout];
    [ reflexivity | ].
  apply nth_overflow. exact Hout.
Qed.


(** X4.  Normalising to a width and then to a width that is no larger gives
    what normalising to the second width alone gives; in particular
    normalising twice to one width changes nothing the second time. *)
Theorem normalizeRow_compose (row : record) (w1 w2 : nat) :
  w2 <= w1 ->
  normalizeRow (normalizeRow row w1) w2 = normalizeRow row w2.
Proof.
  intros Hle.
  apply nth_ext with (d := "") (d' := "").
  - rewrite !normalizeRow_length. reflexivity.
  - intros i _. rewrite !normalizeRow_nth_eq.
    destruct (Nat.ltb_spec i w2) as [H2 | H2]; [ | reflexivity ].
    destruct (Nat.ltb_spec i w1) as [H1 | H1]; [ reflexivity | lia ].
Qed.

(** ** What every run hands to its writer *)

Lemma nullified_nth (p : Policy) (rec : record) (i : nat) :
  i < List.length rec ->
  nth i (nullified p rec) ""
  = if IsNull p (nth i rec "") then "" else nth i rec "".
Proof.
  revert i. induction rec as [ | cell rest IH ]; intros i Hi.
  - cbn [List.length] in Hi. lia.
  - destruct i as [ | i ]; [ reflexivity | ].
    cbn [nullified map nth]. apply IH. cbn [List.length] in Hi. lia.
Qed.

Lemma outputRow_length (p : Policy) (h rec : record) :
  List.length (outputRow p h rec) = List.length h.
Proof.
  unfold outputRow. rewrite nullified_length. apply normalizeRow_length.
Qed.



(** X5.  On every run, whatever its outcome, data row [j] handed to the
    writer comes from data row [j] read: it has as many fields as the header,
    and its field [i] is empty when the policy matches field [i] of the row
    read (a missing field counts as empty), and is that field unchanged when
    it does not. *)
Theorem output_rows (fs : FileSystem) (inputPath outputPath : string)
  (p : Policy) (j : nat) (out : record) :
  let run := NullifyFile fs inputPath outputPath p in
  let width := List.length (headerOf (inputOf fs inputPath)) in
  nth_error (tl (attempted (trace run))) j = Some out ->
  exists rec : record,
    nth_error (tl (readBack (trace run))) j = Some rec
    /\ List.length out = width
    /\ forall i : nat,
         i < width ->
         nth i out ""
         = if IsNull p (nth i rec "") then "" else nth i rec "".
Proof.
  intros run width Hout. subst run width.
  destruct (NullifyFile_attempted fs inputPath outputPath p)
    as [[Hr Ha] | (rows & Hr & Ha)]; rewrite Ha in Hout; cbn [tl] in Hout.
  - destruct j; discriminate Hout.
  - rewrite Hr. cbn [tl].
    rewrite nth_error_map in Hout.
    destruct (nth_error rows j) as [rec | ]; [ | discriminate Hout ].
    cbn [option_map] in Hout. injection Hout as <-.
    exists rec. split; [ reflexivity | ].
    split; [ apply outputRow_length | ].
    intros i Hi.
    rewrite nullified_nth by (rewrite normalizeRow_length; exact Hi).
    rewrite normalizeRow_nth_eq.
    destruct (Nat.ltb_spec i (List.length (headerOf (inputOf fs inputPath))));
      [ reflexivity | lia ].
Qed.

(** ** Errors, by phase *)

Lemma nullifyRows_err (p : Policy) (h : record) (r : Reader) :
  forall (w : Writer) (st : NullifyStats),
    err (nullifyRows p h r w st) = None
    \/ exists ctx cause,
         err (nullifyRows p h r w st) = Some (Errorf ctx cause)
         /\ In ctx rowPhases.
Proof.
  assert (Hflush : forall w st,
            err (flushOutput w st) = None
            \/ exists ctx cause,
                 err (flushOutput w st) = Some (Errorf ctx cause)
                 /\ In ctx rowPhases).
  { intros w st. unfold flushOutput.
    destruct (flushed w) as [e | ]; [ right | left; reflexivity ].
    exists "flush output csv", e. split; [ reflexivity | cbn; tauto ]. }
  induction r as [ | [rec | e] r IH ]; intros w st.
  - cbn [nullifyRows emit err]. apply Hflush.
  - rewrite nullifyRows_Row. cbn zeta.
    destruct (csv_Write w _) as [[e | ] w']; cbn [emit err].
    + right. exists "write row", e. split; [ reflexivity | cbn; tauto ].
    + apply IH.
  - cbn [nullifyRows emit err].
    destruct (is_EOF e); [ apply Hflush | ].
    right. exists "read row", e. split; [ reflexivity | cbn; tauto ].
Qed.

(** X6.  Every error [NullifyFile] returns carries the context of its phase.
    An error from before the first data row (open, create, read or write of
    the header) comes with all-zero statistics and nothing written; an error
    from a later phase (read row, write row, flush) comes with the header
    written as the first record of the output. *)
Theorem error_phases (fs : FileSystem) (inputPath outputPath : string)
  (p : Policy) :
  let run := NullifyFile fs inputPath outputPath p in
  err run = None
  \/ (exists ctx cause,
        err run = Some (Errorf ctx cause)
        /\ In ctx headerPhases
        /\ stats run = noStats
        /\ written (trace run) = [])
  \/ (exists ctx cause,
        err run = Some (Errorf ctx cause)
        /\ In ctx rowPhases
        /\ hd_error (written (trace run))
           = Some (headerOf (inputOf fs inputPath))).
Proof.
  cbn zeta. unfold NullifyFile, inputOf.
  destruct (os_Open fs inputPath) as [r | e].
  2:{ right. left. exists "open input csv", e.
      repeat split; cbn; tauto. }
  destruct (os_Create fs outputPath) as [w | e].
  2:{ right. left. exists "create output csv", e.
      repeat split; cbn; tauto. }
  unfold deferFlush. cbn [stats err trace].
  destruct r as [ | [h | e] r ]; cbn [csv_Read emit stats err trace].
  - right. left. exists "read headers", io_EOF.
    repeat split; cbn; tauto.
  - unfold headerOf. cbn [csv_Read].
    destruct (csv_Write w h) as [[e | ] w']; cbn [emit stats err trace].
    + right. left. exists "write headers", e.
      repeat split; cbn; tauto.
    + destruct (nullifyRows_err p h r w' noStats)
        as [Hnone | (ctx & cause & Herr & Hin)].
      * left. exact Hnone.
      * right. right. exists ctx, cause.
        repeat split; assumption.
  - right. left. exists "read headers", e.
    repeat split; cbn; tauto.
Qed.

(** ** A second run *)




(** ** An empty input file *)

(** X8.  On an input file that holds no record, [ReadHeaders], [ReadHead]
    (for every [n]) and [NullifyFile] all fail with [io.EOF] wrapped as
    "read headers"; [NullifyFile] has created the output by then and leaves it
    without a record, with all-zero statistics. *)
Theorem empty_input (fs : FileSystem) (path : string) :
  os_Open fs path = Ok [] ->
  ReadHeaders fs path = Err (Errorf "read headers" io_EOF)
  /\ (forall n : Z,
        ReadHead fs path n = Returns (Err (Errorf "read headers" io_EOF)))
  /\ (forall (outputPath : string) (p : Policy) (w : Writer),
        os_Create fs outputPath = Ok w ->
        let run := NullifyFile fs path outputPath p in
        err run = Some (Errorf "read headers" io_EOF)
        /\ option_map Error (err run) = Some "read headers: EOF"
        /\ stats run = noStats
        /\ written (trace run) = []).
Proof.
  intros Hopen. unfold ReadHeaders, ReadHead, NullifyFile.
  rewrite Hopen. cbn [csv_Read].
  split; [ reflexivity | ]. split; [ reflexivity | ].
  intros outputPath p w Hcreate. rewrite Hcreate.
  repeat split.
Qed.

(** ** [ReadHead], for every [n] *)



Lemma len_app {A : Type} (a b : list A) : len (a ++ b) = (len a + len b)%Z.
Proof. unfold len. rewrite length_app. lia. Qed.






(** ** [IsNull] and surrounding white space *)

Lemma append_nil_r (s : string) : (s ++ "")%string = s.
Proof. induction s as [ | c s IH ]; cbn; [ | rewrite IH ]; reflexivity. Qed.

Lemma append_assoc (a b c : string) :
  ((a ++ b) ++ c)%string = (a ++ (b ++ c))%string.
Proof. induction a as [ | x a IH ]; cbn; [ | rewrite IH ]; reflexivity. Qed.

Lemma list_ascii_of_string_app (a b : string) :
  list_ascii_of_string (a ++ b)
  = list_ascii_of_string a ++ list_ascii_of_string b.
Proof. induction a as [ | x a IH ]; cbn; [ | rewrite IH ]; reflexivity. Qed.

Lemma space2_cont (c1 c2 : ascii) :
  space2 c1 c2 = true -> RuneStart c2 = false.
Proof.
  unfold space2, RuneStart. cbn zeta. intros H.
  apply andb_prop in H. destruct H as [_ H].
  apply orb_prop in H.
  destruct H as [H | H]; apply N.eqb_eq in H; rewrite H; reflexivity.
Qed.

Lemma space3_cont (c1 c2 c3 : ascii) :
  space3 c1 c2 c3 = true -> RuneStart c2 = false /\ RuneStart c3 = false.
Proof.
  unfold space3, RuneStart. cbn zeta. intros H.
  repeat match type of H with
         | (_ || _)%bool = true => apply orb_prop in H; destruct H as [H | H]
         end;
    repeat match goal with
           | Hc : (_ && _)%bool = true |- _ =>
               apply andb_prop in Hc; destruct Hc
           | Hc : (_ || _)%bool = true |- _ =>
               apply orb_prop in Hc; destruct Hc
           | Hc : (_ =? _)%N = true |- _ => apply N.eqb_eq in Hc
           | Hc : (_ <=? _)%N = true |- _ => apply N.leb_le in Hc
           end;
    split;
    apply negb_false_iff; apply andb_true_intro;
    split; try (apply N.leb_le; lia); try (apply N.ltb_lt; lia).
Qed.

Lemma whiteSpace_start (w : string) :
  In w whiteSpace ->
  startsRune w = true /\ TrimLeftSpace w = "" /\ w <> "".
Proof.
  unfold whiteSpace. cbn [map In]. intros H.
  repeat (destruct H as [H | H];
          [ subst w; repeat split; discriminate | ]).
  contradiction.
Qed.

(** [TrimLeftSpace] on a string with more text after it, when that text
    starts on a rune boundary. *)
Lemma TrimLeftSpace_app (x : string) :
  startsRune x = true ->
  forall (n : nat) (s : string),
    String.length s <= n ->
    TrimLeftSpace (s ++ x)
    = match TrimLeftSpace s with
      | EmptyString => TrimLeftSpace x
      | String _ _ => (TrimLeftSpace s ++ x)%string
      end.
Proof.
  intros Hx.
  induction n as [ | n IH ]; intros s Hlen.
  - destruct s; [ reflexivity | cbn in Hlen; lia ].
  - destruct s as [ | c1 s1 ]; [ reflexivity | ].
    cbn [String.length] in Hlen.
    cbn [append TrimLeftSpace].
    destruct (asciiSpace c1) eqn:E1; [ apply IH; lia | ].
    destruct s1 as [ | c2 s2 ].
    + cbn [append].
      destruct x as [ | c2 x' ]; [ reflexivity | ].
      cbn [startsRune] in Hx.
      destruct (space2 c1 c2) eqn:E2.
      { apply space2_cont in E2. congruence. }
      destruct x' as [ | c3 x'' ]; [ reflexivity | ].
      destruct (space3 c1 c2 c3) eqn:E3; [ | reflexivity ].
      apply space3_cont in E3. destruct E3. congruence.
    + cbn [String.length] in Hlen. cbn [append].
      destruct (space2 c1 c2) eqn:E2; [ apply IH; lia | ].
      destruct s2 as [ | c3 s3 ].
      * cbn [append].
        destruct x as [ | c3 x' ]; [ reflexivity | ].
        cbn [startsRune] in Hx.
        destruct (space3 c1 c2 c3) eqn:E3; [ | reflexivity ].
        apply space3_cont in E3. destruct E3. congruence.
      * cbn [String.length] in Hlen. cbn [append].
        destruct (space3 c1 c2 c3) eqn:E3; [ apply IH; lia | reflexivity ].
Qed.

Lemma trimSpaceRev_rune (w : string) (l : list ascii) :
  In w whiteSpace ->
  trimSpaceRev (rev (list_ascii_of_string w) ++ l) = trimSpaceRev l.
Proof.
  unfold whiteSpace. cbn [map In]. intros H.
  repeat (destruct H as [H | H]; [ subst w; reflexivity | ]).
  contradiction.
Qed.

Lemma TrimRightSpace_rune (t w : string) :
  In w whiteSpace -> TrimRightSpace (t ++ w) = TrimRightSpace t.
Proof.
  intros H. unfold TrimRightSpace.
  rewrite list_ascii_of_string_app, rev_app_distr, trimSpaceRev_rune
    by exact H.
  reflexivity.
Qed.

Lemma TrimSpace_rune_l (w s : string) :
  In w whiteSpace -> TrimSpace (w ++ s) = TrimSpace s.
Proof.
  intros H. unfold TrimSpace. rewrite TrimLeftSpace_rune by exact H.
  reflexivity.
Qed.

Lemma TrimSpace_rune_r (s w : string) :
  In w whiteSpace -> TrimSpace (s ++ w) = TrimSpace s.
Proof.
  intros H. unfold TrimSpace.
  destruct (whiteSpace_start w H) as (Hstart & Hw & _).
  rewrite (TrimLeftSpace_app w Hstart (String.length s) s (le_n _)).
  destruct (TrimLeftSpace s) as [ | c t ].
  - rewrite Hw. reflexivity.
  - apply TrimRightSpace_rune. exact H.
Qed.

Lemma TrimSpace_surrounded (l s r : string) :
  WhiteSpaceOnly l -> WhiteSpaceOnly r ->
  TrimSpace (l ++ s ++ r) = TrimSpace s.
Proof.
  intros Hl Hr.
  transitivity (TrimSpace (s ++ r)).
  - induction Hl as [ | w l Hw _ IH ]; [ reflexivity | ].
    rewrite append_assoc, TrimSpace_rune_l by exact Hw. exact IH.
  - clear Hl. revert s.
    induction Hr as [ | w r Hw _ IH ]; intros s.
    + rewrite append_nil_r. reflexivity.
    + rewrite <- append_assoc, IH. apply TrimSpace_rune_r. exact Hw.
Qed.

Lemma IsNull_TrimSpace (p : Policy) (s s' : string) :
  TrimSpace s = TrimSpace s' -> IsNull p s = IsNull p s'.
Proof. intros H. unfold IsNull. rewrite H. reflexivity. Qed.

(** X12.  [IsNull] ignores the white space around a value: with any white
    space (Unicode white space too) put before and after a string, [IsNull]
    answers what it answers on the string itself. *)
Theorem IsNull_surrounding_space (p : Policy) (l s r : string) :
  WhiteSpaceOnly l -> WhiteSpaceOnly r ->
  IsNull p (l ++ s ++ r) = IsNull p s.
Proof.
  intros Hl Hr. apply IsNull_TrimSpace.
  apply TrimSpace_surrounded; assumption.
Qed.

(** ** [IsNull] and letter case *)

Lemma upperByte_high (c : ascii) :
  (byte c <? 128)%N = false -> upperByte c = c.
Proof.
  unfold upperByte. cbn zeta. intros H. apply N.ltb_ge in H.
  destruct (N.leb_spec 97 (byte c)); destruct (N.leb_spec (byte c) 122);
    cbn [andb]; try reflexivity. lia.
Qed.

Lemma upperByte_low (c : ascii) :
  (byte c <? 128)%N = true -> (byte (upperByte c) <? 128)%N = true.
Proof.
  unfold upperByte. cbn zeta. intros H.
  destruct (N.leb_spec 97 (byte c)); destruct (N.leb_spec (byte c) 122);
    cbn [andb]; try exact H.
  apply N.ltb_lt in H. unfold byte in *.
  rewrite N_ascii_embedding by lia. apply N.ltb_lt. lia.
Qed.

Lemma upperByte_asciiSpace (c : ascii) :
  asciiSpace (upperByte c) = asciiSpace c.
Proof.
  unfold upperByte. cbn zeta.
  destruct (N.leb_spec 97 (byte c)); destruct (N.leb_spec (byte c) 122);
    cbn [andb]; try reflexivity.
  unfold asciiSpace. cbn zeta.
  unfold byte in *. rewrite N_ascii_embedding by lia.
  destruct (N.leb_spec 9 (N_of_ascii c - 32));
    destruct (N.leb_spec (N_of_ascii c - 32) 13);
    destruct (N.eqb_spec (N_of_ascii c - 32) 32);
    destruct (N.leb_spec 9 (N_of_ascii c));
    destruct (N.leb_spec (N_of_ascii c) 13);
    destruct (N.eqb_spec (N_of_ascii c) 32);
    cbn [andb orb]; try reflexivity; lia.
Qed.

Lemma space2_high (c1 c2 : ascii) :
  space2 c1 c2 = true ->
  (byte c1 <? 128)%N = false /\ (byte c2 <? 128)%N = false.
Proof.
  unfold space2. cbn zeta. intros H.
  apply andb_prop in H. destruct H as [H1 H2].
  apply N.eqb_eq in H1. apply orb_prop in H2.
  split; [ rewrite H1; reflexivity | ].
  destruct H2 as [H2 | H2]; apply N.eqb_eq in H2; rewrite H2; reflexivity.
Qed.

Lemma space3_high (c1 c2 c3 : ascii) :
  space3 c1 c2 c3 = true ->
  (byte c1 <? 128)%N = false /\ (byte c2 <? 128)%N = false
  /\ (byte c3 <? 128)%N = false.
Proof.
  unfold space3. cbn zeta. intros H.
  repeat match type of H with
         | (_ || _)%bool = true => apply orb_prop in H; destruct H as [H | H]
         end;
    repeat match goal with
           | Hc : (_ && _)%bool = true |- _ =>
               apply andb_prop in Hc; destruct Hc
           | Hc : (_ || _)%bool = true |- _ =>
               apply orb_prop in Hc; destruct Hc
           | Hc : (_ =? _)%N = true |- _ => apply N.eqb_eq in Hc
           | Hc : (_ <=? _)%N = true |- _ => apply N.leb_le in Hc
           end;
    repeat split; apply N.ltb_ge; lia.
Qed.

Lemma upperByte_space2 (c1 c2 : ascii) :
  space2 (upperByte c1) (upperByte c2) = space2 c1 c2.
Proof.
  destruct (byte c1 <? 128)%N eqn:L1; destruct (byte c2 <? 128)%N eqn:L2;
    try (rewrite !upperByte_high by assumption; reflexivity);
    destruct (space2 c1 c2) eqn:E;
    try (apply space2_high in E; destruct E; congruence);
    destruct (space2 (upperByte c1) (upperByte c2)) eqn:E';
    try reflexivity;
    apply space2_high in E'; destruct E' as [E1 E2];
    try (rewrite upperByte_low in E1 by assumption; discriminate);
    try (rewrite upperByte_low in E2 by assumption; discriminate).
Qed.

Lemma upperByte_space3 (c1 c2 c3 : ascii) :
  space3 (upperByte c1) (upperByte c2) (upperByte c3) = space3 c1 c2 c3.
Proof.
  destruct (byte c1 <? 128)%N eqn:L1; destruct (byte c2 <? 128)%N eqn:L2;
    destruct (byte c3 <? 128)%N eqn:L3;
    try (rewrite !upperByte_high by assumption; reflexivity);
    destruct (space3 c1 c2 c3) eqn:E;
    try (apply space3_high in E; destruct E as (? & ? & ?); congruence);
    destruct (space3 (upperByte c1) (upperByte c2) (upperByte c3)) eqn:E';
    try reflexivity;
    apply space3_high in E'; destruct E' as (E1 & E2 & E3);
    try (rewrite upperByte_low in E1 by assumption; discriminate);
    try (rewrite upperByte_low in E2 by assumption; discriminate);
    try (rewrite upperByte_low in E3 by assumption; discriminate).
Qed.

Lemma TrimLeftSpace_upper (s : string) :
  TrimLeftSpace (mapBytes upperByte s) = mapBytes upperByte (TrimLeftSpace s).
Proof.
  functional induction (TrimLeftSpace s); cbn [mapBytes TrimLeftSpace];
    rewrite ?upperByte_asciiSpace, ?upperByte_space2, ?upperByte_space3;
    repeat match goal with
           | H : _ = true |- _ => rewrite H
           | H : _ = false |- _ => rewrite H
           end;
    try reflexivity; assumption.
Qed.

Lemma trimSpaceRev_upper (l : list ascii) :
  trimSpaceRev (map upperByte l) = map upperByte (trimSpaceRev l).
Proof.
  functional induction (trimSpaceRev l); cbn [map trimSpaceRev];
    rewrite ?upperByte_asciiSpace, ?upperByte_space2, ?upperByte_space3;
    repeat match goal with
           | H : _ = true |- _ => rewrite H
           | H : _ = false |- _ => rewrite H
           end;
    try reflexivity; assumption.
Qed.

Lemma list_ascii_of_mapBytes (f : ascii -> ascii) (s : string) :
  list_ascii_of_string (mapBytes f s) = map f (list_ascii_of_string s).
Proof. induction s as [ | c s IH ]; cbn; [ | rewrite IH ]; reflexivity. Qed.

Lemma string_of_map (f : ascii -> ascii) (l : list ascii) :
  string_of_list_ascii (map f l) = mapBytes f (string_of_list_ascii l).
Proof. induction l as [ | c l IH ]; cbn; [ | rewrite IH ]; reflexivity. Qed.

Lemma TrimSpace_upper (s : string) :
  TrimSpace (mapBytes upperByte s) = mapBytes upperByte (TrimSpace s).
Proof.
  unfold TrimSpace, TrimRightSpace.
  rewrite TrimLeftSpace_upper, list_ascii_of_mapBytes, <- map_rev.
  rewrite trimSpaceRev_upper, <- map_rev. apply string_of_map.
Qed.

Lemma isASCII_list (s : string) :
  isASCII s
  = forallb (fun c => (byte c <? 128)%N) (list_ascii_of_string s).
Proof. induction s as [ | c s IH ]; cbn; [ | rewrite IH ]; reflexivity. Qed.

Lemma forallb_rev {A : Type} (f : A -> bool) (l : list A) :
  forallb f (rev l) = forallb f l.
Proof.
  induction l as [ | x l IH ]; [ reflexivity | ].
  cbn [rev forallb]. rewrite forallb_app, IH. cbn [forallb].
  rewrite andb_true_r. apply andb_comm.
Qed.

Lemma isASCII_TrimLeftSpace (s : string) :
  isASCII s = true -> isASCII (TrimLeftSpace s) = true.
Proof.
  functional induction (TrimLeftSpace s); cbn [isASCII]; intros H;
    repeat match goal with
           | Hc : (_ && _)%bool = true |- _ =>
               apply andb_prop in Hc; destruct Hc
           end;
    repeat match goal with
           | Hc : _ = true |- context [_ && _] => rewrite Hc
           end;
    auto.
Qed.

Lemma forallb_trimSpaceRev (f : ascii -> bool) (l : list ascii) :
  forallb f l = true -> forallb f (trimSpaceRev l) = true.
Proof.
  functional induction (trimSpaceRev l); cbn [forallb]; intros H;
    repeat match goal with
           | Hc : (_ && _)%bool = true |- _ =>
               apply andb_prop in Hc; destruct Hc
           end;
    repeat match goal with
           | Hc : _ = true |- context [_ && _] => rewrite Hc
           end;
    auto.
Qed.

Lemma isASCII_TrimSpace (s : string) :
  isASCII s = true -> isASCII (TrimSpace s) = true.
Proof.
  intros H. unfold TrimSpace, TrimRightSpace.
  rewrite isASCII_list, list_ascii_of_string_of_list_ascii, forallb_rev.
  apply forallb_trimSpaceRev. rewrite forallb_rev, <- isASCII_list.
  apply isASCII_TrimLeftSpace. exact H.
Qed.

(** On ASCII text [IsNull] is a function of the upper-case form. *)
Lemma IsNull_ascii (p : Policy) (s : string) :
  isASCII s = true ->
  IsNull p s
  = let upper := TrimSpace (mapBytes upperByte s) in
    if TreatBlanks p && (upper =? "")%string then true
    else if TreatNA p && ((upper =? "NA")%string || (upper =? "N/A")%string)
    then true
    else if TreatNULLLiteral p && (upper =? "NULL")%string then true
    else false.
Proof.
  intros H. unfold IsNull, ToUpper. cbn zeta.
  rewrite isASCII_TrimSpace by exact H.
  rewrite TrimSpace_upper.
  destruct (TrimSpace s) as [ | c t ]; reflexivity.
Qed.

(** X13.  On ASCII text [IsNull] does not look at letter case: two strings
    that differ in the case of their letters only are classified alike. *)
Theorem IsNull_case_insensitive (p : Policy) (s s' : string) :
  isASCII s = true ->
  isASCII s' = true ->
  mapBytes upperByte s = mapBytes upperByte s' ->
  IsNull p s = IsNull p s'.
Proof.
  intros Hs Hs' H.
  rewrite (IsNull_ascii p s Hs), (IsNull_ascii p s' Hs'), H. reflexivity.
Qed.

(** ** [indexByte] and [reorderFlagsToFront] *)

Lemma indexByteFrom_spec (s : string) (b : ascii) :
  forall i : Z,
    (indexByteFrom i s b = (-1)%Z
     /\ forall n : nat, String.get n s <> Some b)
    \/ (exists k : nat,
          indexByteFrom i s b = (i + Z.of_nat k)%Z
          /\ k < String.length s
          /\ String.get k s = Some b
          /\ forall n : nat, n < k -> String.get n s <> Some b).
Proof.
  induction s as [ | c s IH ]; intros i.
  - left. split; [ reflexivity | ]. intros n. destruct n; discriminate.
  - cbn [indexByteFrom].
    destruct (Ascii.eqb_spec c b) as [-> | Hne].
    + right. exists 0. repeat split.
      * lia.
      * cbn [String.length]. lia.
      * intros n Hn. lia.
    + destruct (IH (i + 1)%Z)
        as [[Hnone Hall] | (k & Hk & Hlen & Hget & Hbefore)].
      * left. split; [ exact Hnone | ].
        intros [ | n ]; cbn [String.get]; [ congruence | apply Hall ].
      * right. exists (S k). repeat split.
        -- rewrite Hk. lia.
        -- cbn [String.length]. lia.
        -- exact Hget.
        -- intros [ | n ] Hn; cbn [String.get]; [ congruence | ].
           apply Hbefore. lia.
Qed.

(** X14.  [indexByte s b] is [-1] exactly when [b] is no byte of [s];
    otherwise it is the index of the first [b] in [s]: a valid index, with
    [b] there and at no index before it. *)
Theorem indexByte_spec (s : string) (b : ascii) :
  (indexByte s b = (-1)%Z /\ forall n : nat, String.get n s <> Some b)
  \/ (exists k : nat,
        indexByte s b = Z.of_nat k
        /\ k < String.length s
        /\ String.get k s = Some b
        /\ forall n : nat, n < k -> String.get n s <> Some b).
Proof.
  unfold indexByte. exact (indexByteFrom_spec s b 0).
Qed.

Lemma reorderLoop_split (allowed : boolMap) (args : list string) :
  forall flags positionals : list string,
    reorderLoop allowed args flags positionals
    = (flags ++ fst (splitArgs allowed args))
      ++ (positionals ++ snd (splitArgs allowed args)).
Proof.
  functional induction (splitArgs allowed args); intros flags positionals;
    cbn [reorderLoop fst snd];
    repeat match goal with
           | H : _ = true |- _ => rewrite H
           | H : _ = false |- _ => rewrite H
           end.
  - rewrite !app_nil_r. reflexivity.
  - rewrite IHp, <- !app_assoc. reflexivity.
  - rewrite !app_nil_r. reflexivity.
  - rewrite IHp, <- !app_assoc. reflexivity.
  - rewrite IHp, <- !app_assoc. reflexivity.
Qed.

Lemma reorderFlagsToFront_split (allowed : boolMap) (args : list string) :
  reorderFlagsToFront args allowed
  = fst (splitArgs allowed args) ++ snd (splitArgs allowed args).
Proof. unfold reorderFlagsToFront. apply reorderLoop_split. Qed.

(** X15.  [reorderFlagsToFront] loses no argument and invents none: its
    result is a rearrangement of [args]. *)
Theorem reorderFlagsToFront_permutation (args : list string)
  (allowed : boolMap) :
  Permutation args (reorderFlagsToFront args allowed).
Proof.
  rewrite reorderFlagsToFront_split.
  functional induction (splitArgs allowed args); cbn [fst snd app].
  - constructor.
  - constructor. exact IHp.
  - constructor. constructor.
  - constructor. constructor. exact IHp.
  - apply Permutation_cons_app. exact IHp.
Qed.

Lemma splitArgs_shape (allowed : boolMap) (args : list string) :
  FlagArgs allowed (fst (splitArgs allowed args))
  /\ forallb (positional allowed) (snd (splitArgs allowed args)) = true.
Proof.
  functional induction (splitArgs allowed args); cbn [fst snd forallb];
    try destruct IHp as [IHf IHs].
  - split; constructor.
  - split; [ apply fa_value; assumption | exact IHs ].
  - split; [ apply fa_last; assumption | reflexivity ].
  - split; [ apply fa_pair; assumption | exact IHs ].
  - split; [ exact IHf | ].
    unfold positional at 1. rewrite e0, e1. exact IHs.
Qed.

Lemma splitArgs_positionals (allowed : boolMap) (pos args : list string) :
  forallb (positional allowed) pos = true ->
  splitArgs allowed (pos ++ args)
  = (fst (splitArgs allowed args), pos ++ snd (splitArgs allowed args)).
Proof.
  induction pos as [ | a pos IH ]; intros H.
  - cbn [app]. apply surjective_pairing.
  - cbn [forallb] in H. apply andb_prop in H. destruct H as [Ha Hpos].
    unfold positional in Ha. apply andb_prop in Ha. destruct Ha as [H1 H2].
    apply negb_true_iff in H1. apply negb_true_iff in H2.
    cbn [app splitArgs]. rewrite H1, H2, IH by exact Hpos. reflexivity.
Qed.

Lemma splitArgs_only_positionals (allowed : boolMap) (pos : list string) :
  forallb (positional allowed) pos = true ->
  splitArgs allowed pos = ([], pos).
Proof.
  intros H. rewrite <- (app_nil_r pos) at 1.
  rewrite splitArgs_positionals by exact H.
  cbn [splitArgs fst snd]. rewrite app_nil_r. reflexivity.
Qed.

Lemma splitArgs_flags (allowed : boolMap) (flags pos : list string) :
  FlagArgs allowed flags ->
  forallb (positional allowed) pos = true ->
  fst (splitArgs allowed (flags ++ pos))
  ++ snd (splitArgs allowed (flags ++ pos))
  = flags ++ pos.
Proof.
  intros Hf Hpos.
  induction Hf as [ | a l Ha _ IH | a v l Ha Hb _ IH | a Ha Hb ].
  - cbn [app]. rewrite splitArgs_only_positionals by exact Hpos.
    reflexivity.
  - cbn [app splitArgs]. rewrite Ha. cbn [fst snd app]. rewrite IH.
    reflexivity.
  - cbn [app splitArgs]. rewrite Ha, Hb. cbn [fst snd app]. rewrite IH.
    reflexivity.
  - cbn [app splitArgs]. rewrite Ha, Hb.
    destruct pos as [ | v pos ]; [ reflexivity | ].
    cbn [forallb] in Hpos. apply andb_prop in Hpos. destruct Hpos as [_ Hpos].
    rewrite splitArgs_only_positionals by exact Hpos. reflexivity.
Qed.

(** X16.  Flags that come after the positional arguments are moved in front
    of them, and nothing else changes: when [pos] holds positional arguments
    only and [flags] reads as flags from its first argument to its last,
    [pos ++ flags] becomes [flags ++ pos].  With no flag in it, a list of
    arguments is returned as it is. *)
Theorem reorderFlagsToFront_moves_flags (allowed : boolMap)
  (pos flags : list string) :
  forallb (positional allowed) pos = true ->
  FlagArgs allowed flags ->
  reorderFlagsToFront (pos ++ flags) allowed = flags ++ pos.
Proof.
  intros Hpos Hf.
  rewrite reorderFlagsToFront_split, splitArgs_positionals by exact Hpos.
  cbn [fst snd].
  pose proof (splitArgs_flags allowed flags [] Hf eq_refl) as H.
  rewrite !app_nil_r in H.
  assert (Hs : snd (splitArgs allowed flags) = []).
  { clear H. induction Hf as [ | a l Ha _ IH | a v l Ha Hb _ IH | a Ha Hb ];
      cbn [splitArgs]; rewrite ?Ha, ?Hb; cbn [snd]; auto. }
  rewrite Hs, app_nil_r in *. rewrite H. reflexivity.
Qed.

(** X17.  [reorderFlagsToFront] is idempotent: on its own result it changes
    nothing. *)
Theorem reorderFlagsToFront_idempotent (args : list string)
  (allowed : boolMap) :
  reorderFlagsToFront (reorderFlagsToFront args allowed) allowed
  = reorderFlagsToFront args allowed.
Proof.
  rewrite (reorderFlagsToFront_split allowed args).
  destruct (splitArgs_shape allowed args) as [Hf Hpos].
  rewrite reorderFlagsToFront_split.
  apply splitArgs_flags; assumption.
Qed.

(** ** Package [unicode/utf8]: facts *)

Ltac nlia := zify; Z.to_euclidean_division_equations; lia.

(** Settles the comparisons of the goal that the hypotheses decide. *)
Ltac decide_cmp :=
  repeat match goal with
         | |- context [(?a <=? ?b)%N] =>
             destruct (N.leb_spec a b); try (exfalso; nlia)
         | |- context [(?a <? ?b)%N] =>
             destruct (N.ltb_spec a b); try (exfalso; nlia)
         | |- context [(?a =? ?b)%N] =>
             destruct (N.eqb_spec a b); try (exfalso; nlia)
         end.

Lemma byte_ascii_of_N (n : N) : (n < 256)%N -> byte (ascii_of_N n) = n.
Proof. apply N_ascii_embedding. Qed.

Lemma byte_bounded (c : ascii) : (byte c < 256)%N.
Proof. apply N_ascii_bounded. Qed.

Lemma width_inv (b : N) :
  match utf8.width b with
  | 0 => (0x80 <= b < 0xC2 \/ 0xF4 < b)%N
  | 1 => (b < 0x80)%N
  | 2 => (0xC2 <= b <= 0xDF)%N
  | 3 => (0xE0 <= b <= 0xEF)%N
  | 4 => (0xF0 <= b <= 0xF4)%N
  | _ => False
  end.
Proof.
  unfold utf8.width. decide_cmp; cbn [andb]; lia.
Qed.

Lemma second_inv (b0 b1 : N) :
  utf8.second b0 b1 = true ->
  (0x80 <= b1 <= 0xBF)%N
  /\ (b0 = 0xE0 -> 0xA0 <= b1)%N /\ (b0 = 0xED -> b1 <= 0x9F)%N
  /\ (b0 = 0xF0 -> 0x90 <= b1)%N /\ (b0 = 0xF4 -> b1 <= 0x8F)%N.
Proof.
  unfold utf8.second. intros H. apply andb_prop in H. destruct H as [H1 H2].
  apply N.leb_le in H1. apply N.leb_le in H2.
  revert H1 H2. decide_cmp; intros; lia.
Qed.

Lemma continuation_inv (b : N) :
  utf8.continuation b = true -> (0x80 <= b <= 0xBF)%N.
Proof.
  unfold utf8.continuation. intros H. apply andb_prop in H.
  destruct H as [H1 H2]. apply N.leb_le in H1. apply N.leb_le in H2. lia.
Qed.

(** Every rune the decoder returns has a UTF-8 form of its own. *)
Lemma DecodeRuneInString_valid (s : string) :
  utf8.ValidRune (fst (utf8.DecodeRuneInString s)) = true.
Proof using.
  clear unicodeUpper.
  destruct s as [ | c0 s1 ]; [ reflexivity | ].
  unfold utf8.DecodeRuneInString. cbn zeta.
  pose proof (width_inv (byte c0)) as Hw.
  destruct (utf8.width (byte c0)) as [ | [ | [ | [ | [ | n ] ] ] ] ];
    try reflexivity; try contradiction.
  - cbn [fst]. unfold utf8.ValidRune. decide_cmp; reflexivity.
  - destruct s1 as [ | c1 s2 ]; [ reflexivity | ].
    destruct (utf8.second (byte c0) (byte c1)) eqn:E; [ | reflexivity ].
    apply second_inv in E. cbn [fst]. unfold utf8.ValidRune.
    decide_cmp; reflexivity.
  - destruct s1 as [ | c1 [ | c2 s3 ] ]; try reflexivity.
    destruct (utf8.second (byte c0) (byte c1)) eqn:E; [ | reflexivity ].
    destruct (utf8.continuation (byte c2)) eqn:E2; [ | reflexivity ].
    apply second_inv in E. apply continuation_inv in E2.
    cbn [andb fst]. unfold utf8.ValidRune.
    decide_cmp; reflexivity.
  - destruct s1 as [ | c1 [ | c2 [ | c3 s4 ] ] ]; try reflexivity.
    destruct (utf8.second (byte c0) (byte c1)) eqn:E; [ | reflexivity ].
    destruct (utf8.continuation (byte c2)) eqn:E2; [ | reflexivity ].
    destruct (utf8.continuation (byte c3)) eqn:E3; [ | reflexivity ].
    apply second_inv in E. apply continuation_inv in E2.
    apply continuation_inv in E3.
    cbn [andb fst]. unfold utf8.ValidRune.
    decide_cmp; reflexivity.
Qed.

Lemma width_1 (b : N) : (b < 0x80)%N -> utf8.width b = 1.
Proof. intros H. unfold utf8.width. decide_cmp; reflexivity. Qed.

Lemma width_2 (b : N) : (0xC2 <= b <= 0xDF)%N -> utf8.width b = 2.
Proof. intros H. unfold utf8.width. decide_cmp; reflexivity. Qed.

Lemma width_3 (b : N) : (0xE0 <= b <= 0xEF)%N -> utf8.width b = 3.
Proof. intros H. unfold utf8.width. decide_cmp; reflexivity. Qed.

Lemma width_4 (b : N) : (0xF0 <= b <= 0xF4)%N -> utf8.width b = 4.
Proof. intros H. unfold utf8.width. decide_cmp; reflexivity. Qed.

Lemma second_intro (b0 b1 : N) :
  (0x80 <= b1 <= 0xBF)%N ->
  (b0 = 0xE0 -> 0xA0 <= b1)%N -> (b0 = 0xED -> b1 <= 0x9F)%N ->
  (b0 = 0xF0 -> 0x90 <= b1)%N -> (b0 = 0xF4 -> b1 <= 0x8F)%N ->
  utf8.second b0 b1 = true.
Proof.
  intros H HE0 HED HF0 HF4. unfold utf8.second.
  apply andb_true_intro. split; apply N.leb_le.
  - destruct (N.eqb_spec b0 0xE0); [ auto | ].
    destruct (N.eqb_spec b0 0xF0); [ auto | lia ].
  - destruct (N.eqb_spec b0 0xED); [ auto | ].
    destruct (N.eqb_spec b0 0xF4); [ auto | lia ].
Qed.

Lemma continuation_intro (b : N) :
  (0x80 <= b <= 0xBF)%N -> utf8.continuation b = true.
Proof.
  intros H. unfold utf8.continuation.
  apply andb_true_intro. split; apply N.leb_le; lia.
Qed.

(** The scan over a string that starts with a well-formed rune of one, two,
    three or four bytes. *)
Lemma runes_1 (b0 : N) (rest : string) :
  (b0 < 0x80)%N ->
  utf8.runes (String (ascii_of_N b0) rest) = b0 :: utf8.runes rest.
Proof.
  intros H0. cbn [utf8.runes]. unfold utf8.DecodeRuneInString. cbn zeta.
  rewrite byte_ascii_of_N by lia. rewrite width_1 by exact H0.
  reflexivity.
Qed.

Lemma runes_2 (b0 b1 : N) (rest : string) :
  (0xC2 <= b0 <= 0xDF)%N -> (0x80 <= b1 <= 0xBF)%N ->
  utf8.runes (String (ascii_of_N b0) (String (ascii_of_N b1) rest))
  = ((b0 - 0xC0) * 64 + (b1 - 0x80))%N :: utf8.runes rest.
Proof.
  intros H0 H1. cbn [utf8.runes]. unfold utf8.DecodeRuneInString. cbn zeta.
  rewrite !byte_ascii_of_N by lia. rewrite width_2 by exact H0.
  rewrite second_intro by lia. reflexivity.
Qed.

Lemma runes_3 (b0 b1 b2 : N) (rest : string) :
  (0xE0 <= b0 <= 0xEF)%N -> (0x80 <= b1 <= 0xBF)%N ->
  (b0 = 0xE0 -> 0xA0 <= b1)%N -> (b0 = 0xED -> b1 <= 0x9F)%N ->
  (0x80 <= b2 <= 0xBF)%N ->
  utf8.runes
    (String (ascii_of_N b0)
       (String (ascii_of_N b1) (String (ascii_of_N b2) rest)))
  = (((b0 - 0xE0) * 64 + (b1 - 0x80)) * 64 + (b2 - 0x80))%N
    :: utf8.runes rest.
Proof.
  intros H0 H1 HE0 HED H2.
  cbn [utf8.runes]. unfold utf8.DecodeRuneInString. cbn zeta.
  rewrite !byte_ascii_of_N by lia. rewrite width_3 by exact H0.
  rewrite second_intro by (try assumption; lia).
  rewrite continuation_intro by exact H2. reflexivity.
Qed.

Lemma runes_4 (b0 b1 b2 b3 : N) (rest : string) :
  (0xF0 <= b0 <= 0xF4)%N -> (0x80 <= b1 <= 0xBF)%N ->
  (b0 = 0xF0 -> 0x90 <= b1)%N -> (b0 = 0xF4 -> b1 <= 0x8F)%N ->
  (0x80 <= b2 <= 0xBF)%N -> (0x80 <= b3 <= 0xBF)%N ->
  utf8.runes
    (String (ascii_of_N b0)
       (String (ascii_of_N b1)
          (String (ascii_of_N b2) (String (ascii_of_N b3) rest))))
  = ((((b0 - 0xF0) * 64 + (b1 - 0x80)) * 64 + (b2 - 0x80)) * 64
     + (b3 - 0x80))%N
    :: utf8.runes rest.
Proof.
  intros H0 H1 HF0 HF4 H2 H3.
  cbn [utf8.runes]. unfold utf8.DecodeRuneInString. cbn zeta.
  rewrite !byte_ascii_of_N by lia. rewrite width_4 by exact H0.
  rewrite second_intro by (try assumption; lia).
  rewrite !continuation_intro by assumption. reflexivity.
Qed.

(** Decoding undoes encoding: the scan over the UTF-8 form of a rune, with
    whatever text after it, gives that rune and goes on with the text. *)
Lemma runes_EncodeRune (r : N) (rest : string) :
  utf8.ValidRune r = true ->
  utf8.runes (utf8.EncodeRune r ++ rest) = r :: utf8.runes rest.
Proof using.
  clear unicodeUpper.
  intros Hv. unfold utf8.EncodeRune. rewrite Hv. cbn [negb].
  unfold utf8.ValidRune in Hv. apply andb_prop in Hv.
  destruct Hv as [Hmax Hsur]. apply N.leb_le in Hmax.
  apply negb_true_iff in Hsur.
  assert (Hs : (r < 0xD800 \/ 0xDFFF < r)%N).
  { destruct (N.leb_spec 0xD800 r); destruct (N.leb_spec r 0xDFFF);
      cbn [andb] in Hsur; try discriminate Hsur; lia. }
  clear Hsur.
  destruct (N.leb_spec r 0x7F) as [H1 | H1].
  { cbn [bytes map string_of_list_ascii append].
    apply runes_1. lia. }
  destruct (N.leb_spec r 0x7FF) as [H2 | H2].
  { cbn [bytes map string_of_list_ascii append].
    rewrite runes_2 by nlia. f_equal. nlia. }
  destruct (N.leb_spec r 0xFFFF) as [H3 | H3].
  { cbn [bytes map string_of_list_ascii append].
    rewrite runes_3 by (try intros ?; nlia). f_equal. nlia. }
  cbn [bytes map string_of_list_ascii append].
  rewrite runes_4 by (try intros ?; nlia). f_equal. nlia.
Qed.

(** One step of the scan: the rune at the front, then the scan of a
    shorter string. *)
Lemma runes_step (c0 : ascii) (s1 : string) :
  exists rest : string,
    utf8.runes (String c0 s1)
    = fst (utf8.DecodeRuneInString (String c0 s1)) :: utf8.runes rest
    /\ String.length rest <= String.length s1.
Proof.
  cbn [utf8.runes].
  destruct (snd (utf8.DecodeRuneInString (String c0 s1)))
    as [ | [ | [ | [ | [ | n ] ] ] ] ];
    destruct s1 as [ | c1 [ | c2 [ | c3 s4 ] ] ];
    eexists; (split; [ reflexivity | cbn [String.length]; lia ]).
Qed.

Lemma runes_valid (s : string) :
  Forall (fun r => utf8.ValidRune r = true) (utf8.runes s).
Proof.
  remember (String.length s) as n eqn:Hn.
  assert (Hle : String.length s <= n) by lia. clear Hn.
  revert s Hle. induction n as [ | n IH ]; intros s Hle.
  - destruct s; [ constructor | cbn in Hle; lia ].
  - destruct s as [ | c0 s1 ]; [ constructor | ].
    destruct (runes_step c0 s1) as (rest & Heq & Hlen).
    rewrite Heq. constructor.
    + apply DecodeRuneInString_valid.
    + apply IH. cbn [String.length] in Hle. lia.
Qed.

Lemma runes_encodeAll (rs : list N) (rest : string) :
  Forall (fun r => utf8.ValidRune r = true) rs ->
  utf8.runes (utf8.encodeAll rs ++ rest) = rs ++ utf8.runes rest.
Proof.
  induction 1 as [ | r rs Hr _ IH ]; [ reflexivity | ].
  cbn [utf8.encodeAll app].
  rewrite append_assoc, runes_EncodeRune by exact Hr.
  rewrite IH. reflexivity.
Qed.

Lemma encodeAll_app (a b : list N) :
  utf8.encodeAll (a ++ b)
  = (utf8.encodeAll a ++ utf8.encodeAll b)%string.
Proof.
  induction a as [ | r a IH ]; [ reflexivity | ].
  cbn [app utf8.encodeAll]. rewrite IH, append_assoc. reflexivity.
Qed.

(** ** Package [render]: [takeRunes] and [clip] *)

Lemma takeLoop_eq (rs : list N) :
  forall (out : string) (count n : Z),
    (count < n)%Z ->
    render.takeLoop rs out count n
    = (out ++ utf8.encodeAll (firstn (Z.to_nat (n - count)) rs))%string.
Proof.
  induction rs as [ | r rs IH ]; intros out count n Hlt.
  - rewrite firstn_nil. cbn [render.takeLoop utf8.encodeAll].
    rewrite append_nil_r. reflexivity.
  - cbn [render.takeLoop]. rewrite Z.geb_leb.
    destruct (Z.leb_spec n (count + 1)) as [Hge | Hgt].
    + replace (Z.to_nat (n - count)) with 1 by lia.
      cbn [firstn utf8.encodeAll]. rewrite append_nil_r. reflexivity.
    + rewrite IH by lia.
      replace (Z.to_nat (n - count)) with (S (Z.to_nat (n - (count + 1))))
        by lia.
      cbn [firstn utf8.encodeAll]. rewrite append_assoc. reflexivity.
Qed.

Lemma takeRunes_eq (s : string) (n : Z) :
  (0 < n)%Z ->
  render.takeRunes s n
  = utf8.encodeAll (firstn (Z.to_nat n) (utf8.runes s)).
Proof.
  intros Hn. unfold render.takeRunes.
  destruct (Z.leb_spec n 0) as [H | _]; [ lia | ].
  rewrite takeLoop_eq by exact Hn. rewrite Z.sub_0_r. reflexivity.
Qed.

Lemma Forall_firstn {A : Type} (P : A -> Prop) (n : nat) (l : list A) :
  Forall P l -> Forall P (firstn n l).
Proof.
  intros H. rewrite Forall_forall in *. intros x Hx.
  apply H. eapply In_firstn. exact Hx.
Qed.

Lemma runes_takeRunes (s : string) (n : Z) :
  (0 < n)%Z ->
  utf8.runes (render.takeRunes s n) = firstn (Z.to_nat n) (utf8.runes s).
Proof.
  intros Hn. rewrite takeRunes_eq by exact Hn.
  rewrite <- (append_nil_r (utf8.encodeAll _)).
  rewrite runes_encodeAll by (apply Forall_firstn; apply runes_valid).
  apply app_nil_r.
Qed.

Lemma len_firstn {A : Type} (n : Z) (l : list A) :
  (0 <= n)%Z -> len (firstn (Z.to_nat n) l) = render.min n (len l).
Proof.
  intros Hn. unfold len, render.min. rewrite length_firstn.
  destruct (Z.ltb_spec n (Z.of_nat (List.length l))); lia.
Qed.

(** X18.  [takeRunes s n] is empty for [n <= 0]; for [n > 0] it holds the
    first [n] runes of [s], all of them when [s] has fewer, as [range] reads
    them (a byte that starts no well-formed rune reads as U+FFFD): its rune
    count is [min n (runeLen s)]. *)
Theorem takeRunes_runes (s : string) (n : Z) :
  ((n <= 0)%Z -> render.takeRunes s n = "")
  /\ ((0 < n)%Z ->
      utf8.runes (render.takeRunes s n)
      = firstn (Z.to_nat n) (utf8.runes s)
      /\ render.runeLen (render.takeRunes s n)
         = render.min n (render.runeLen s)).
Proof.
  split.
  - intros Hn. unfold render.takeRunes.
    destruct (Z.leb_spec n 0); [ reflexivity | lia ].
  - intros Hn. split; [ apply runes_takeRunes; exact Hn | ].
    unfold render.runeLen, utf8.RuneCountInString.
    rewrite runes_takeRunes by exact Hn. apply len_firstn. lia.
Qed.

Lemma runes_ellipsis : utf8.runes render.ellipsis = [0x2026%N].
Proof. reflexivity. Qed.

Lemma runes_clip_long (s : string) (max : Z) :
  (0 < max)%Z -> (max < render.runeLen s)%Z ->
  utf8.runes (render.clip s max)
  = firstn (Z.to_nat (max - 1)) (utf8.runes s) ++ [0x2026%N].
Proof.
  intros Hpos Hlong. unfold render.clip.
  destruct (Z.leb_spec max 0) as [H | _]; [ lia | ].
  destruct (Z.leb_spec (render.runeLen s) max) as [H | _]; [ lia | ].
  destruct (Z.leb_spec max 1) as [H1 | H1].
  - replace (Z.to_nat (max - 1)) with 0 by lia. reflexivity.
  - rewrite takeRunes_eq by lia.
    rewrite runes_encodeAll by (apply Forall_firstn; apply runes_valid).
    rewrite runes_ellipsis. reflexivity.
Qed.

(** X19.  [clip s max] is [s] itself when [max <= 0] or when [s] has at most
    [max] runes.  Otherwise it is cut: its runes are the first [max - 1]
    runes of [s] and then U+2026.  For [max > 0] the result always has
    [min max (runeLen s)] runes, hence never more than [max]. *)
Theorem clip_runes (s : string) (max : Z) :
  ((max <= 0)%Z \/ (render.runeLen s <= max)%Z -> render.clip s max = s)
  /\ ((0 < max)%Z -> (max < render.runeLen s)%Z ->
      utf8.runes (render.clip s max)
      = firstn (Z.to_nat (max - 1)) (utf8.runes s) ++ [0x2026%N])
  /\ ((0 < max)%Z ->
      render.runeLen (render.clip s max)
      = render.min max (render.runeLen s)).
Proof.
  split; [ | split ].
  - intros H. unfold render.clip.
    destruct (Z.leb_spec max 0); [ reflexivity | ].
    destruct (Z.leb_spec (render.runeLen s) max); [ reflexivity | lia ].
  - apply runes_clip_long.
  - intros Hpos. unfold render.min.
    destruct (Z.ltb_spec max (render.runeLen s)) as [Hlong | Hshort].
    + unfold render.runeLen at 1. unfold utf8.RuneCountInString.
      rewrite runes_clip_long by assumption.
      rewrite len_app, len_firstn by lia.
      unfold render.min, render.runeLen, utf8.RuneCountInString in *.
      change (len [8230%N]) with 1%Z.
      destruct (Z.ltb_spec (max - 1) (len (utf8.runes s))); lia.
    + unfold render.clip.
      destruct (Z.leb_spec max 0); [ lia | ].
      destruct (Z.leb_spec (render.runeLen s) max); [ reflexivity | lia ].
Qed.

(** X20.  On text that is valid UTF-8, [clip] cuts on a rune boundary: when
    [s] has more than [max > 0] runes, the result is a prefix of [s] of
    exactly [max - 1] runes, with the bytes of [s] as they are, followed by
    the ellipsis. *)
Theorem clip_valid_prefix (s : string) (max : Z) :
  utf8.ValidString s = true ->
  (0 < max)%Z -> (max < render.runeLen s)%Z ->
  exists pre rest : string,
    s = (pre ++ rest)%string
    /\ render.clip s max = (pre ++ render.ellipsis)%string
    /\ render.runeLen pre = (max - 1)%Z.
Proof.
  intros Hvalid Hpos Hlong.
  unfold utf8.ValidString in Hvalid. apply String.eqb_eq in Hvalid.
  set (k := Z.to_nat (max - 1)).
  exists (utf8.encodeAll (firstn k (utf8.runes s))),
         (utf8.encodeAll (skipn k (utf8.runes s))).
  split; [ | split ].
  - rewrite <- encodeAll_app, firstn_skipn. symmetry. exact Hvalid.
  - unfold render.clip.
    destruct (Z.leb_spec max 0) as [H | _]; [ lia | ].
    destruct (Z.leb_spec (render.runeLen s) max) as [H | _]; [ lia | ].
    destruct (Z.leb_spec max 1) as [H1 | H1].
    + subst k. replace (Z.to_nat (max - 1)) with 0 by lia. reflexivity.
    + rewrite takeRunes_eq by lia. reflexivity.
  - unfold render.runeLen, utf8.RuneCountInString in *.
    rewrite <- (append_nil_r (utf8.encodeAll _)).
    rewrite runes_encodeAll by (apply Forall_firstn; apply runes_valid).
    rewrite app_nil_r. subst k. rewrite len_firstn by lia.
    unfold render.min. destruct (Z.ltb_spec (max - 1) (len (utf8.runes s))); lia.
Qed.

End Pipeline.

(** ** Closed instances *)

(** C4 as stated fails: scenario A does not report 2 nullified cells,
    whatever the Unicode tables. *)
Lemma scenario_A_not_two :
  ~ (exists tbl : string -> string,
       let run :=
         NullifyFile tbl (holding scenarioA) "in.csv" "out.csv" blanksOnly in
       map (String.concat ",") (tl (written (trace run))) = [ "1,"; ",2" ]
       /\ stats run
          = {| RowsRead := 2; CellsChecked := 4; CellsNullified := 2 |}).
Proof.
  intros [tbl [_ H]]. vm_compute in H. discriminate H.
Qed.

(** A string of a space, a no-break space (U+00A0) and a tab is white space
    only. *)
Lemma blank_WhiteSpaceOnly :
  WhiteSpaceOnly (" " ++ bytes [0xC2; 0xA0]%N ++ bytes [0x09]%N).
Proof.
  apply ws_rune; [ cbn; tauto | ].
  apply ws_rune; [ cbn; tauto | ].
  apply (ws_rune (bytes [0x09]%N) ""); [ cbn; tauto | ].
  apply ws_empty.
Qed.

(** On that string, with blanks not treated as NULL, [IsNull] is false even
    with the NA and NULL-literal rules on. *)
Lemma IsNull_spec_witness :
  let s := (" " ++ bytes [0xC2; 0xA0]%N ++ bytes [0x09]%N)%string in
  let p :=
    {| TreatBlanks := false; TreatNA := true; TreatNULLLiteral := true |} in
  WhiteSpaceOnly s
  /\ IsNull asciiTable p s = false
  /\ ToUpper asciiTable (TrimSpace s) <> "NA"
  /\ ToUpper asciiTable (TrimSpace s) <> "N/A"
  /\ ToUpper asciiTable (TrimSpace s) <> "NULL".
Proof.
  split; [ exact blank_WhiteSpaceOnly | ].
  apply (proj2 (IsNull_spec asciiTable
                  {| TreatBlanks := false; TreatNA := true;
                     TreatNULLLiteral := true |}
                  (" " ++ bytes [0xC2; 0xA0]%N ++ bytes [0x09]%N)%string)).
  exact blank_WhiteSpaceOnly.
Defined.

(** Two spaces are NULL under the blanks-only policy, and still are with the
    NA rule switched on as well. *)
Lemma IsNull_monotone_witness :
  IsNull asciiTable blanksOnly "  " = true
  /\ IsNull asciiTable blanksAndNA "  " = true.
Proof.
  split; [ reflexivity | ].
  apply (IsNull_monotone asciiTable blanksOnly blanksAndNA "  ").
  - intros _. reflexivity.
  - intros H. discriminate H.
  - intros H. discriminate H.
  - reflexivity.
Defined.

(** Scenarios C and D: a short row is padded, a long row is cut. *)
Lemma normalizeRow_spec_witness :
  normalizeRow ["x"; "y"] 3 = ["x"; "y"; ""]
  /\ normalizeRow ["x"; "y"; "z"] 2 = ["x"; "y"].
Proof.
  split.
  - apply (proj2 (proj2 (normalizeRow_spec ["x"; "y"] 3))).
    cbn [List.length]. lia.
  - apply (proj1 (proj2 (normalizeRow_spec ["x"; "y"; "z"] 2))).
    cbn [List.length]. lia.
Defined.

(** [ReadHead] with [n = 0] on the file of scenario A. *)
Lemma ReadHead_zero_witness :
  ReadHead (holding scenarioA) "in.csv" 0 = Returns (Ok (["a"; "b"], []))
  /\ ReadHeaders (holding scenarioA) "in.csv" = Ok ["a"; "b"].
Proof.
  apply (ReadHead_zero (holding scenarioA) "in.csv" scenarioA
           (tl scenarioA) ["a"; "b"]); reflexivity.
Defined.

(** The partial statistics of scenario E, a run that a read error ends. *)
Lemma counting_invariant_witness :
  let run :=
    NullifyFile asciiTable (holding scenarioE) "in.csv" "out.csv" blanksAndNA in
  (len (tl scenarioE) * len (headerOf scenarioE) <= MaxInt)%Z
  /\ (CellsNullified (stats run) <= CellsChecked (stats run))%Z
  /\ CellsChecked (stats run) = (RowsRead (stats run) * 2)%Z.
Proof.
  cbn zeta. split; [ vm_compute; discriminate | ].
  apply (counting_invariant asciiTable (holding scenarioE) "in.csv" "out.csv"
           blanksAndNA).
  vm_compute. discriminate.
Defined.

(** Scenario A, then a second run on its output. *)
Lemma nullify_idempotent_witness :
  let run1 :=
    NullifyFile asciiTable (holding scenarioA) "in.csv" "out.csv" blanksOnly in
  let run2 :=
    NullifyFile asciiTable (reopen run1) "out.csv" "again.csv" blanksOnly in
  err run1 = None
  /\ CellsNullified (stats run1) = 1%Z
  /\ CellsNullified (stats run2) = 0%Z.
Proof.
  cbn zeta. split; [ reflexivity | ]. split; [ reflexivity | ].
  apply (nullify_idempotent asciiTable (holding scenarioA) "in.csv" "out.csv"
           blanksOnly); reflexivity.
Defined.

(** The header of scenario A, with every switch on. *)
Lemma header_fidelity_witness :
  let run :=
    NullifyFile asciiTable (holding scenarioA) "in.csv" "out.csv"
      {| TreatBlanks := true; TreatNA := true; TreatNULLLiteral := true |} in
  trace run
  = EvRead (Ok ["a"; "b"]) :: EvWrite ["a"; "b"] None
    :: trace (nullifyRows asciiTable
                {| TreatBlanks := true; TreatNA := true;
                   TreatNULLLiteral := true |}
                ["a"; "b"] (tl scenarioA) healthy noStats)
       ++ [EvFlush]
  /\ written (trace run)
     = ["a"; "b"]
       :: written (trace (nullifyRows asciiTable
                            {| TreatBlanks := true; TreatNA := true;
                               TreatNULLLiteral := true |}
                            ["a"; "b"] (tl scenarioA) healthy noStats)).
Proof.
  apply (header_fidelity asciiTable (holding scenarioA) "in.csv" "out.csv"
           {| TreatBlanks := true; TreatNA := true; TreatNULLLiteral := true |}
           scenarioA (tl scenarioA) healthy ["a"; "b"]); reflexivity.
Defined.

(** Scenario E: the read error on the second data line ends the run with the
    statistics of the first. *)
Lemma read_error_aborts_witness :
  let run :=
    NullifyFile asciiTable (holding scenarioE) "in.csv" "out.csv" blanksAndNA in
  let e :=
    Failure "parse error on line 3, column 4: unterminated quoted field" in
  err run = Some (Errorf "read row" e)
  /\ option_map Error (err run)
     = Some "read row: parse error on line 3, column 4: unterminated quoted field"
  /\ stats run
     = processed asciiTable blanksAndNA ["a"; "b"] [["NA"; " "]] noStats
  /\ RowsRead (stats run) = wrap (len [["NA"; " "]])
  /\ trace run
     = EvRead (Ok ["a"; "b"]) :: EvWrite ["a"; "b"] None
       :: flat_map (turn asciiTable blanksAndNA ["a"; "b"]) [["NA"; " "]]
          ++ [EvRead (Err e); EvFlush].
Proof.
  apply (read_error_aborts asciiTable (holding scenarioE) "in.csv" "out.csv"
           blanksAndNA healthy ["a"; "b"] [["NA"; " "]]
           (Failure "parse error on line 3, column 4: unterminated quoted field")
           [Row ["x"; "y"]]); reflexivity.
Defined.

(** The numbers of that run. *)
Lemma scenario_E_stats :
  stats (NullifyFile asciiTable (holding scenarioE) "in.csv" "out.csv"
           blanksAndNA)
  = {| RowsRead := 1; CellsChecked := 2; CellsNullified := 2 |}.
Proof. reflexivity. Qed.

(** ** Closed instances, continued *)

(** Scenario A from end to end. *)
Lemma complete_run_witness :
  let run :=
    NullifyFile asciiTable (holding scenarioA) "in.csv" "out.csv" blanksOnly in
  err run = None
  /\ stats run
     = processed asciiTable blanksOnly ["a"; "b"] [["1"; ""]; [" "; "2"]]
         noStats
  /\ RowsRead (stats run) = 2%Z
  /\ CellsChecked (stats run) = 4%Z
  /\ written (trace run) = [ ["a"; "b"]; ["1"; ""]; [""; "2"] ].
Proof.
  apply (complete_run asciiTable (holding scenarioA) "in.csv" "out.csv"
           blanksOnly healthy ["a"; "b"] [["1"; ""]; [" "; "2"]]);
    reflexivity.
Defined.

(** Scenario A on a disk that fills up at the second data row. *)
Lemma write_error_aborts_witness :
  let run :=
    NullifyFile asciiTable
      (holdingOn scenarioA (failingAfter 2 (Failure "no space left on device")))
      "in.csv" "out.csv" blanksOnly in
  err run = Some (Errorf "write row" (Failure "no space left on device"))
  /\ stats run
     = processed asciiTable blanksOnly ["a"; "b"] [["1"; ""]; [" "; "2"]]
         noStats
  /\ RowsRead (stats run) = 2%Z
  /\ written (trace run) = [ ["a"; "b"]; ["1"; ""] ]
  /\ trace run
     = [ EvRead (Ok ["a"; "b"]); EvWrite ["a"; "b"] None;
         EvRead (Ok ["1"; ""]); EvWrite ["1"; ""] None;
         EvRead (Ok [" "; "2"]);
         EvWrite [""; "2"] (Some (Failure "no space left on device"));
         EvFlush ].
Proof.
  apply (write_error_aborts asciiTable
           (holdingOn scenarioA
              (failingAfter 2 (Failure "no space left on device")))
           "in.csv" "out.csv" blanksOnly
           (failingAfter 2 (Failure "no space left on device"))
           ["a"; "b"] [["1"; ""]] [" "; "2"] []
           (Failure "no space left on device")); reflexivity.
Defined.

Lemma normalizeRow_compose_witness :
  normalizeRow (normalizeRow ["x"; "y"] 3) 1 = normalizeRow ["x"; "y"] 1.
Proof.
  apply (normalizeRow_compose ["x"; "y"] 3 1). lia.
Defined.

(** The second data row of scenario A. *)
Lemma output_rows_witness :
  let run :=
    NullifyFile asciiTable (holding scenarioA) "in.csv" "out.csv" blanksOnly in
  nth_error (tl (attempted (trace run))) 1 = Some [""; "2"]
  /\ exists rec : record,
       nth_error (tl (readBack (trace run))) 1 = Some rec
       /\ List.length [""; "2"] = 2
       /\ forall i : nat,
            i < 2 ->
            nth i [""; "2"] ""
            = if IsNull asciiTable blanksOnly (nth i rec "") then ""
              else nth i rec "".
Proof.
  split; [ reflexivity | ].
  apply (output_rows asciiTable (holding scenarioA) "in.csv" "out.csv"
           blanksOnly 1 [""; "2"]).
  reflexivity.
Defined.


Lemma empty_input_witness :
  ReadHeaders (holding []) "empty.csv" = Err (Errorf "read headers" io_EOF)
  /\ (forall n : Z,
        ReadHead (holding []) "empty.csv" n
        = Returns (Err (Errorf "read headers" io_EOF)))
  /\ (forall (outputPath : string) (p : Policy) (w : Writer),
        os_Create (holding []) outputPath = Ok w ->
        let run := NullifyFile asciiTable (holding []) "empty.csv" outputPath p in
        err run = Some (Errorf "read headers" io_EOF)
        /\ option_map Error (err run) = Some "read headers: EOF"
        /\ stats run = noStats
        /\ written (trace run) = []).
Proof.
  apply (empty_input asciiTable (holding []) "empty.csv"). reflexivity.
Defined.




(** " n/a" between a tab and a no-break space. *)
Lemma IsNull_surrounding_space_witness :
  IsNull asciiTable blanksAndNA
    (bytes [0x09]%N ++ "n/a" ++ (" " ++ bytes [0xC2; 0xA0]%N))%string
  = IsNull asciiTable blanksAndNA "n/a".
Proof.
  apply (IsNull_surrounding_space asciiTable blanksAndNA
           (bytes [0x09]%N) "n/a" (" " ++ bytes [0xC2; 0xA0]%N)%string).
  - apply (ws_rune (bytes [0x09]%N) ""); [ cbn; tauto | apply ws_empty ].
  - apply ws_rune; [ cbn; tauto | ].
    apply (ws_rune (bytes [0xC2; 0xA0]%N) ""); [ cbn; tauto | apply ws_empty ].
Defined.

Lemma IsNull_case_insensitive_witness :
  IsNull asciiTable blanksAndNA "n/A" = IsNull asciiTable blanksAndNA "N/a".
Proof.
  apply (IsNull_case_insensitive asciiTable blanksAndNA "n/A" "N/a");
    reflexivity.
Defined.

(** [df head file.csv -n 5 -w=20]. *)
Lemma reorderFlagsToFront_moves_flags_witness :
  reorderFlagsToFront (["file.csv"] ++ ["-n"; "5"; "-w=20"]) headFlags
  = ["-n"; "5"; "-w=20"] ++ ["file.csv"].
Proof.
  apply (reorderFlagsToFront_moves_flags headFlags ["file.csv"]
           ["-n"; "5"; "-w=20"]).
  - reflexivity.
  - apply fa_pair; [ reflexivity | reflexivity | ].
    apply fa_value; [ reflexivity | ].
    apply fa_nil.
Defined.

(** "héllo": nothing for a count of zero, "hé" for a count of two. *)
Lemma takeRunes_runes_witness :
  render.takeRunes ("h" ++ bytes [0xC3; 0xA9]%N ++ "llo")%string 0 = ""
  /\ utf8.runes (render.takeRunes ("h" ++ bytes [0xC3; 0xA9]%N ++ "llo")%string 2)
     = [0x68; 0xE9]%N
  /\ render.runeLen (render.takeRunes ("h" ++ bytes [0xC3; 0xA9]%N ++ "llo")%string 2)
     = 2%Z.
Proof.
  split.
  - apply (proj1 (takeRunes_runes
                    ("h" ++ bytes [0xC3; 0xA9]%N ++ "llo")%string 0)).
    lia.
  - apply (proj2 (takeRunes_runes
                    ("h" ++ bytes [0xC3; 0xA9]%N ++ "llo")%string 2)).
    lia.
Defined.

(** "h", a byte that starts no rune, "llo": five runes, so a limit of five
    leaves the text alone and a limit of three cuts it. *)
Lemma clip_runes_witness :
  render.clip ("h" ++ bytes [0xFF]%N ++ "llo")%string 5
  = ("h" ++ bytes [0xFF]%N ++ "llo")%string
  /\ utf8.runes (render.clip ("h" ++ bytes [0xFF]%N ++ "llo")%string 3)
     = [0x68; 0xFFFD; 0x2026]%N
  /\ render.runeLen (render.clip ("h" ++ bytes [0xFF]%N ++ "llo")%string 3) = 3%Z.
Proof.
  pose proof (clip_runes ("h" ++ bytes [0xFF]%N ++ "llo")%string 3)
    as (_ & Hcut & Hlen).
  split; [ | split ].
  - apply (proj1 (clip_runes ("h" ++ bytes [0xFF]%N ++ "llo")%string 5)).
    right. vm_compute. discriminate.
  - apply Hcut; [ lia | vm_compute; reflexivity ].
  - apply Hlen. lia.
Defined.

(** "héllo" cut to three columns. *)
Lemma clip_valid_prefix_witness :
  exists pre rest : string,
    ("h" ++ bytes [0xC3; 0xA9]%N ++ "llo")%string = (pre ++ rest)%string
    /\ render.clip ("h" ++ bytes [0xC3; 0xA9]%N ++ "llo")%string 3
       = (pre ++ render.ellipsis)%string
    /\ render.runeLen pre = (3 - 1)%Z.
Proof.
  apply (clip_valid_prefix ("h" ++ bytes [0xC3; 0xA9]%N ++ "llo")%string 3).
  - reflexivity.
  - lia.
  - vm_compute. reflexivity.
Defined.
